(** * firdes: finite impulse response filter design and analysis

    A shallow embedding of [src/filter/src/firdes.c] (liquid) and the
    verification of its specification.

    Conventions of the embedding:
    - [unsigned int] is a [Z] in [0, 2^32) and [int] a [Z] in
      [-2^31, 2^31); every C operation that can leave the range has its
      wrap-around written out ([to_uint], [to_int]);
    - [float] is IEEE-754 binary32 and [double] binary64, both carried by
      [spec_float] and computed with the operations of [SpecFloat] at
      precision 24/128 and 53/1024 (round to nearest even, expressions
      evaluated in the precision of their C type);
    - a [float *] argument is the list of the cells of the caller's array;
      a read or a write outside of it is the outcome [OutOfBounds];
    - [printf(...); exit(0)] is the outcome [Exited] with the diagnostic;
    - a call whose behaviour the C standard leaves undefined is the outcome
      [Undefined], and a call that returns a value the standard leaves
      unspecified is the outcome [Unspecified]. *)

From Stdlib Require Import ZArith List Bool Lia SpecFloat.
From stdpp Require Import base list.
Import ListNotations.

Local Open Scope Z_scope.

(** ** Machine integers *)

Module CInt.

Definition to_uint (z : Z) : Z := z mod 2^32.

Definition to_int (z : Z) : Z := (z + 2^31) mod 2^32 - 2^31.

Definition in_uint (z : Z) : Prop := 0 <= z < 2^32.

Definition in_int (z : Z) : Prop := -2^31 <= z < 2^31.

(** [abs] of <stdlib.h>: the absolute value where [int] holds it.  The
    behaviour of [abs(INT_MIN)] is undefined: there is no value. *)
Definition abs (x : Z) : option Z :=
  if Z.abs x <? 2^31 then Some (Z.abs x) else None.

End CInt.

(** ** Floating point *)

Module F32.

Definition prec : Z := 24.
Definition emax : Z := 128.

Definition zero : spec_float := S754_zero false.
Definition nan : spec_float := S754_nan.
Definition half : spec_float := S754_finite false 8388608 (-24).
Definition one : spec_float := S754_finite false 8388608 (-23).

Definition add := SFadd prec emax.
Definition sub := SFsub prec emax.
Definition mul := SFmul prec emax.
Definition div := SFdiv prec emax.
Definition opp := SFopp.
Definition abs := SFabs.
Definition ltb := SFltb.
Definition leb := SFleb.
Definition eqb := SFeqb.

(** Conversion of an integer to [float]. *)
Definition of_Z (z : Z) : spec_float := binary_normalize prec emax z 0 false.

(** Conversion of a floating-point value of any format to [float]. *)
Definition of_float (x : spec_float) : spec_float :=
  match x with
  | S754_finite s m e => binary_round prec emax s m e
  | _ => x
  end.

(** The decimal constant [n / 10^d], for [n] and [10^d] below [2^24]. *)
Definition dec (n : Z) (d : Z) : spec_float := div (of_Z n) (of_Z (10 ^ d)).

End F32.

Module F64.

Definition prec : Z := 53.
Definition emax : Z := 1024.

Definition add := SFadd prec emax.
Definition mul := SFmul prec emax.
Definition div := SFdiv prec emax.

Definition of_Z (z : Z) : spec_float := binary_normalize prec emax z 0 false.

Definition of_float (x : spec_float) : spec_float :=
  match x with
  | S754_finite s m e => binary_round prec emax s m e
  | _ => x
  end.

(** The decimal constant [n / 10^d], for [n] and [10^d] below [2^53]. *)
Definition dec (n : Z) (d : Z) : spec_float := div (of_Z n) (of_Z (10 ^ d)).

(** [M_PI] of <math.h>: 0x400921FB54442D18. *)
Definition M_PI : spec_float := S754_finite false 7074237752028440 (-51).

End F64.

Abbreviation float := spec_float.
Abbreviation double := spec_float.

(** ** Outcomes of a call *)

Inductive diagnostic : Set :=
| invalid_bandwidth
| invalid_sidelobe_level
| mu_out_of_range
| cutoff_out_of_range
| zero_filter_length.

Inductive outcome (A : Type) : Type :=
| Returned (a : A)
| Exited (d : diagnostic)
| OutOfBounds
| Unspecified
| Undefined.

Arguments Returned {A} a.
Arguments Exited {A} d.
Arguments OutOfBounds {A}.
Arguments Unspecified {A}.
Arguments Undefined {A}.

Definition bind {A B} (o : outcome A) (k : A -> outcome B) : outcome B :=
  match o with
  | Returned a => k a
  | Exited d => Exited d
  | OutOfBounds => OutOfBounds
  | Unspecified => Unspecified
  | Undefined => Undefined
  end.

Notation "'do' x <- o ; k" := (bind o (fun x => k))
  (at level 10, x pattern, o at level 100, k at level 200).

(** The spec's InvalidParameter condition: a failed validation, which the
    code reports by a diagnostic and [exit(0)]. *)
Definition InvalidParameter {A} (o : outcome A) : Prop := exists d, o = Exited d.

(** ** Arrays and loops *)

Definition read (h : list float) (i : Z) : outcome float :=
  if i <? 0 then OutOfBounds
  else match h !! Z.to_nat i with
       | Some x => Returned x
       | None => OutOfBounds
       end.

Definition write (h : list float) (i : Z) (x : float) : outcome (list float) :=
  if (0 <=? i) && (i <? Z.of_nat (length h)) then Returned (<[Z.to_nat i := x]> h)
  else OutOfBounds.

(** [for (i = lo; ...; i++) body], run for [n] iterations. *)
Fixpoint for_loop {S : Type} (n : nat) (i : Z) (body : Z -> S -> outcome S) (s : S)
  : outcome S :=
  match n with
  | O => Returned s
  | S n' => do s' <- body i s; for_loop n' (i + 1) body s'
  end.

(** ** Filter analysis *)

Import CInt.

(** [liquid_filter_autocorr(_h, _h_len, _lag)].  [_lag = abs(_lag)] is
    undefined for [INT_MIN]; in [_lag >= _h_len] and in [i = _lag],
    [i - _lag] the [int] is converted to [unsigned int]. *)
Definition liquid_filter_autocorr (h : list float) (h_len : Z) (lag : Z) : outcome float :=
  match CInt.abs lag with
  | None => Undefined
  | Some lag =>
      if to_uint lag >=? h_len then Returned F32.zero
      else
        for_loop (Z.to_nat (h_len - to_uint lag)) (to_uint lag)
          (fun i rxx =>
             do hi <- read h i;
             do hj <- read h (to_uint (i - lag));
             Returned (F32.add rxx (F32.mul hi hj)))
          F32.zero
  end.


(** [liquid_filter_isi(_h, _k, _m, &mse, &max)]: the pair of the values
    stored through [_mse] and [_max].  [2*_k*_m+1], [2*_m] and [i*_k] are
    [unsigned int] expressions; [i*_k] is converted to the [int] parameter
    [_lag] of [liquid_filter_autocorr]. *)
Definition isi_iterations (m : Z) : nat := Z.to_nat (to_uint (2 * m)).

Definition isi_divisor (m : Z) : float := F32.of_Z (to_uint (2 * m)).

Definition isi_body (h : list float) (h_len k : Z) (rxx0 : float)
    (i : Z) (s : float * float) : outcome (float * float) :=
  let '(isi_mse, isi_max) := s in
  do r <- liquid_filter_autocorr h h_len (to_int (to_uint (i * k)));
  let e := F32.div r rxx0 in
  let e := F32.abs e in
  let isi_mse := F32.add isi_mse (F32.mul e e) in
  let isi_max := if (i =? 1) || F32.ltb isi_max e then e else isi_max in
  Returned (isi_mse, isi_max).

Definition liquid_filter_isi (h : list float) (k m : Z) : outcome (float * float) :=
  let h_len := to_uint (to_uint (to_uint (2 * k) * m) + 1) in
  do rxx0 <- liquid_filter_autocorr h h_len 0;
  do s <- for_loop (isi_iterations m) 1 (isi_body h h_len k rxx0) (F32.zero, F32.zero);
  let '(isi_mse, isi_max) := s in
  Returned (F32.div isi_mse (isi_divisor m), isi_max).

(** ** Filter design *)

(** [lroundf] of <math.h>, to a 64-bit [long]: the nearest integer, halfway
    cases away from zero.  For an infinity, a NaN, and a rounded value that
    [long] cannot hold, the call returns and its value is [Unspecified]. *)
Definition round_half_away (s : bool) (m : positive) (e : Z) : Z :=
  let a := match e with
           | Z0 => Zpos m
           | Zpos _ => Zpos m * 2 ^ e
           | Zneg _ => (Zpos m + 2 ^ (- e - 1)) / 2 ^ (- e)
           end in
  cond_Zopp s a.

Definition lroundf (x : float) : outcome Z :=
  match x with
  | S754_zero _ => Returned 0
  | S754_finite s m e =>
      let z := round_half_away s m e in
      if (- 2^63 <=? z) && (z <? 2^63) then Returned z else Unspecified
  | _ => Unspecified
  end.

(** [estimate_req_filter_len(_b, _slsl)].  The conversion of an
    unspecified [long] to [unsigned int] is unspecified as well. *)
Definition estimate_req_filter_len (b slsl : float) : outcome Z :=
  if F32.ltb F32.half b || F32.leb b F32.zero then Exited invalid_bandwidth
  else if F32.leb slsl F32.zero then Exited invalid_sidelobe_level
  else if F32.ltb slsl (F32.of_Z 8) then Returned 2
  else
    do r <- lroundf (F32.div (F32.sub slsl (F32.of_Z 8)) (F32.mul (F32.of_Z 14) b));
    Returned (to_uint r).

(** Functions of <math.h> and of liquid that [firdes.c] calls and does not
    define. *)
Class Externals : Type := {
  powf : float -> float -> float;
  cosf : float -> float;
  sincf : float -> float;
  besselj_0 : float -> float;
  kaiser : Z -> Z -> float -> float -> float
}.

Section Design.

Context {ext : Externals}.

(** [kaiser_beta_slsl(_slsl)].  [0.5842] is a [double] constant: the
    middle branch is evaluated in [double] and rounded to [float] by the
    assignment to [beta]. *)
Definition kaiser_beta_slsl (slsl : float) : float :=
  let slsl := F32.abs slsl in
  if F32.ltb (F32.of_Z 50) slsl then
    F32.mul (F32.dec 1102 4) (F32.sub slsl (F32.dec 87 1))
  else if F32.ltb (F32.of_Z 21) slsl then
    F32.of_float
      (F64.add
         (F64.mul (F64.dec 5842 4)
            (F64.of_float (powf (F32.sub slsl (F32.of_Z 21)) (F32.dec 4 1))))
         (F64.of_float (F32.mul (F32.dec 7886 5) (F32.sub slsl (F32.of_Z 21)))))
  else F32.zero.

(** [t = (float)i - (float)(_n-1)/2] *)
Definition tap_time (n i : Z) : float :=
  F32.sub (F32.of_Z i) (F32.div (F32.of_Z (to_uint (n - 1))) (F32.of_Z 2)).

(** [fir_kaiser_window(_n, _fc, _slsl, _mu, _h)]: the caller's array after
    the call. *)
Definition kaiser_window_tap (n : Z) (fc beta mu : float) (i : Z) : float :=
  let t := F32.add (tap_time n i) mu in
  let h1 := sincf (F32.mul fc t) in
  let h2 := kaiser i n beta mu in
  F32.mul h1 h2.

Definition fir_kaiser_window (n : Z) (fc slsl mu : float) (h : list float)
  : outcome (list float) :=
  if F32.ltb mu (F32.opp F32.half) || F32.ltb F32.half mu then Exited mu_out_of_range
  else if F32.ltb fc F32.zero || F32.ltb F32.one fc then Exited cutoff_out_of_range
  else if n =? 0 then Exited zero_filter_length
  else
    let beta := kaiser_beta_slsl slsl in
    for_loop (Z.to_nat n) 0
      (fun i h => write h i (kaiser_window_tap n fc beta mu i)) h.

(** [fir_design_doppler(_n, _fd, _K, _theta, _h)].  [1.5] and [M_PI] are
    [double] constants; [fabsf], [besselj_0] and [cosf] take and return
    [float]; [J], [r] and [w] are [float]. *)
Definition two_pi_fd_t (fd t : float) : double :=
  F64.mul (F64.mul (F64.mul (F64.of_Z 2) F64.M_PI) (F64.of_float fd)) (F64.of_float t).

Definition doppler_tap (n : Z) (fd K theta : float) (i : Z) : float :=
  let beta := F32.of_Z 4 in
  let t := tap_time n i in
  let J := F32.of_float
             (F64.mul (F64.dec 15 1)
                (F64.of_float (besselj_0 (F32.abs (F32.of_float (two_pi_fd_t fd t)))))) in
  let r := F32.of_float
             (F64.mul
                (F64.div (F64.mul (F64.dec 15 1) (F64.of_float K))
                   (F64.of_float (F32.add K (F32.of_Z 1))))
                (F64.of_float
                   (cosf (F32.of_float
                            (F64.mul (two_pi_fd_t fd t) (F64.of_float (cosf theta))))))) in
  let w := kaiser i n beta (F32.of_Z 0) in
  F32.mul (F32.add J r) w.

Definition fir_design_doppler (n : Z) (fd K theta : float) (h : list float)
  : outcome (list float) :=
  for_loop (Z.to_nat n) 0 (fun i h => write h i (doppler_tap n fd K theta i)) h.

End Design.

(** Stand-ins for the numeric routines, to run the designs on examples. *)
Definition sample_externals : Externals := {|
  powf := fun x _ => x;
  cosf := fun _ => F32.one;
  sincf := fun x => x;
  besselj_0 := fun _ => F32.one;
  kaiser := fun i n _ _ => F32.of_Z (i + n)
|}.

(** Stand-ins that hand their argument back ([kaiser] its [beta]), to trace
    what a design passes to the numeric routines. *)
Definition tracing_externals : Externals := {|
  powf := fun x _ => x;
  cosf := fun x => x;
  sincf := fun x => x;
  besselj_0 := fun x => x;
  kaiser := fun _ _ beta _ => beta
|}.

(** ** The quantities of the specification *)

(** *** FilterAutocorrelation

    [r(lag)] is the sum, taken from [i = |lag|] upwards and starting from
    [0.0f], of [h[i] * h[i - |lag|]], and [0] when there is no overlap. *)

Fixpoint fold_range {S : Type} (n : nat) (i : Z) (g : Z -> S -> S) (s : S) : S :=
  match n with
  | O => s
  | S n' => fold_range n' (i + 1) g (g i s)
  end.

(** Sum of [f lo], [f (lo+1)], ... [f hi], in this order. *)
Definition sum_range (f : Z -> float) (lo hi : Z) : float :=
  fold_range (Z.to_nat (hi - lo + 1)) lo (fun i acc => F32.add acc (f i)) F32.zero.

Definition get (h : list float) (i : Z) : float := default F32.zero (h !! Z.to_nat i).

Definition autocorr_spec (h : list float) (L : Z) (lag : Z) : float :=
  let a := Z.abs lag in
  if a <? L then sum_range (fun i => F32.mul (get h i) (get h (i - a))) a (L - 1)
  else F32.zero.


(** *** ISIAnalyzer

    [e_i = |r(i k) / r(0)|] for the autocorrelation [r] of a vector of
    [2 k m + 1] coefficients; the mean of the [e_i^2] and the largest [e_i],
    for [i = 1 .. 2 m]. *)

Definition fmax (a b : float) : float := if F32.ltb a b then b else a.

(** The largest of [f lo], ..., [f hi] ([lo <= hi]). *)
Definition max_range (f : Z -> float) (lo hi : Z) : float :=
  fold_range (Z.to_nat (hi - lo)) (lo + 1) (fun i acc => fmax acc (f i)) (f lo).

(** [x] is one of [f lo], ..., [f hi] and none of them is greater. *)
Definition is_max_range (f : Z -> float) (lo hi : Z) (x : float) : Prop :=
  (exists j, lo <= j <= hi /\ x = f j)
  /\ (forall i, lo <= i <= hi -> F32.ltb x (f i) = false).

Definition isi_e (h : list float) (k m i : Z) : float :=
  F32.abs (F32.div (autocorr_spec h (2 * k * m + 1) (i * k))
                   (autocorr_spec h (2 * k * m + 1) 0)).

Definition isi_mse_spec (h : list float) (k m : Z) : float :=
  F32.div (sum_range (fun i => F32.mul (isi_e h k m i) (isi_e h k m i)) 1 (2 * m))
          (F32.of_Z (2 * m)).

Definition isi_max_spec (h : list float) (k m : Z) : float :=
  max_range (isi_e h k m) 1 (2 * m).

(** One iteration of the loop of [liquid_filter_isi], on the terms [e]. *)
Definition isi_step (e : Z -> float) (i : Z) (s : float * float) : float * float :=
  (F32.add (fst s) (F32.mul (e i) (e i)),
   if (i =? 1) || F32.ltb (snd s) (e i) then e i else snd s).

(** Two unit pulses [2^31 - 2] samples apart, in [2^31 + 3] coefficients. *)
Definition far_pulses : list float :=
  F32.one :: replicate (Z.to_nat (2^31 - 3)) F32.zero ++ F32.one :: replicate 4 F32.zero.

(** The order of [SFcompare] is the lexicographic order of these keys. *)
Definition rank (x : float) : option (Z * Z * Z) :=
  match x with
  | S754_nan => None
  | S754_zero _ => Some (0, 0, 0)
  | S754_infinity s => Some (if s then -2 else 2, 0, 0)
  | S754_finite s m e => Some (if s then (-1, - e, Zneg m) else (1, e, Zpos m))
  end.

Definition lex_lt (a b : Z * Z * Z) : Prop :=
  fst (fst a) < fst (fst b)
  \/ (fst (fst a) = fst (fst b)
      /\ (snd (fst a) < snd (fst b)
          \/ (snd (fst a) = snd (fst b) /\ snd a < snd b))).

(** A value other than a zero and a NaN. *)
Definition nonzero (x : float) : Prop :=
  match x with
  | S754_finite _ _ _ | S754_infinity _ => True
  | _ => False
  end.

(** *** Intervals of the design parameters, by the comparisons of [float] *)

Definition outside (lo hi x : float) : Prop :=
  F32.ltb x lo = true \/ F32.ltb hi x = true.

(** *** Further quantities

    [h_len = 2*_k*_m+1] as [liquid_filter_isi] computes it, in
    [unsigned int]. *)
Definition isi_length (k m : Z) : Z := to_uint (to_uint (to_uint (2 * k) * m) + 1).

(** [n] coefficients, all [0] but [x] at index [c]. *)
Definition unit_pulse (n c : Z) (x : float) : list float :=
  <[Z.to_nat c := x]> (replicate (Z.to_nat n) F32.zero).

(** The [int] that [liquid_filter_isi] passes as the lag of term [i]. *)
Definition isi_lag (k i : Z) : Z := to_int (to_uint (i * k)).

(** No term of the ISI analysis has the lag [INT_MIN], at which
    [liquid_filter_autocorr] is undefined. *)
Definition isi_lags_defined (k m : Z) : Prop :=
  forall i, 1 <= i <= to_uint (2 * m) -> isi_lag k i <> - 2^31.

(** The term [i] of the ISI analysis as the code computes it, on the
    autocorrelation of the first [isi_length k m] cells. *)
Definition isi_e_wrapped (h : list float) (k m i : Z) : float :=
  F32.abs (F32.div (autocorr_spec h (isi_length k m) (isi_lag k i))
                   (autocorr_spec h (isi_length k m) 0)).

(** A value of the binary32 format: a canonical mantissa and exponent. *)
Definition valid_float (x : float) : Prop := valid_binary F32.prec F32.emax x = true.

(** ** Properties of the machine integers *)

(** Side conditions on the range of an [unsigned int] or an [int]. *)
Ltac range := unfold in_uint, in_int in *; lia.

Lemma to_uint_small z : in_uint z -> to_uint z = z.
Proof. unfold in_uint, to_uint. intros H. now apply Z.mod_small. Qed.

Lemma to_int_small z : in_int z -> to_int z = z.
Proof.
  unfold in_int, to_int. intros H.
  rewrite Z.mod_small; lia.
Qed.

Lemma to_int_range z : in_int (to_int z).
Proof.
  unfold in_int, to_int. pose proof (Z.mod_pos_bound (z + 2^31) (2^32)). lia.
Qed.

Lemma to_uint_range z : in_uint (to_uint z).
Proof. unfold in_uint, to_uint. apply Z.mod_pos_bound. lia. Qed.

(** [abs] has a value on every [int] but [INT_MIN]. *)
Lemma abs_defined lag : - 2^31 < lag < 2^31 -> CInt.abs lag = Some (Z.abs lag).
Proof.
  intros H. unfold CInt.abs. destruct (Z.ltb_spec (Z.abs lag) (2^31)); [reflexivity|lia].
Qed.

Lemma abs_undefined : CInt.abs (- 2^31) = None.
Proof. reflexivity. Qed.

Lemma abs_Some lag a : CInt.abs lag = Some a -> a = Z.abs lag /\ - 2^31 < lag < 2^31.
Proof.
  unfold CInt.abs. destruct (Z.ltb_spec (Z.abs lag) (2^31)); [|discriminate].
  intros [= <-]. lia.
Qed.

Lemma abs_opp lag : CInt.abs (- lag) = CInt.abs lag.
Proof. unfold CInt.abs. now rewrite Z.abs_opp. Qed.

(** ** Properties of arrays and loops *)

Lemma read_in_bounds (h : list float) i :
  0 <= i < Z.of_nat (length h) -> read h i = Returned (get h i).
Proof.
  intros H. unfold read, get.
  destruct (Z.ltb_spec i 0); [lia|].
  destruct (h !! Z.to_nat i) eqn:E; [reflexivity|].
  apply lookup_ge_None in E. lia.
Qed.

Lemma for_loop_pure {S : Type} (g : Z -> S -> S) body n :
  forall lo s,
    (forall j t, lo <= j < lo + Z.of_nat n -> body j t = Returned (g j t)) ->
    for_loop n lo body s = Returned (fold_range n lo g s).
Proof.
  induction n as [|n IH]; intros lo s Hb; [reflexivity|].
  cbn [for_loop fold_range]. rewrite Hb by lia. cbn [bind].
  apply IH. intros j t Hj. apply Hb. lia.
Qed.

(** A loop whose iterations return or are undefined, and whose iteration
    [j] is undefined. *)
Lemma for_loop_undefined {S : Type} (body : Z -> S -> outcome S) n :
  forall lo j s,
    lo <= j < lo + Z.of_nat n ->
    (forall i t, lo <= i < lo + Z.of_nat n ->
       body i t = Undefined \/ exists t', body i t = Returned t') ->
    (forall t, body j t = Undefined) ->
    for_loop n lo body s = Undefined.
Proof.
  induction n as [|n IH]; intros lo j s Hj Hb Hbad; [lia|].
  cbn [for_loop]. destruct (Z.eq_dec lo j) as [->|Hne]; [now rewrite Hbad|].
  destruct (Hb lo s) as [-> | [t' ->]]; [lia | reflexivity |]. cbn [bind].
  apply (IH (lo + 1) j); [lia | | assumption].
  intros i t Hi. apply Hb. lia.
Qed.

Lemma fold_range_app {S : Type} (g : Z -> S -> S) n1 :
  forall n2 lo s,
    fold_range (n1 + n2) lo g s = fold_range n2 (lo + Z.of_nat n1) g (fold_range n1 lo g s).
Proof.
  induction n1 as [|n1 IH]; intros n2 lo s.
  - cbn [fold_range Nat.add]. now rewrite Z.add_0_r.
  - cbn [fold_range Nat.add]. rewrite IH. f_equal. lia.
Qed.

Lemma fold_add_zeros (f : Z -> float) n :
  forall lo acc,
    (forall i, lo <= i < lo + Z.of_nat n -> f i = F32.zero) ->
    F32.add acc F32.zero = acc ->
    fold_range n lo (fun i a => F32.add a (f i)) acc = acc.
Proof.
  induction n as [|n IH]; intros lo acc Hf Hacc; [reflexivity|].
  cbn [fold_range]. rewrite Hf, Hacc by lia. apply IH; [|assumption].
  intros i Hi. apply Hf. lia.
Qed.

(** The sum of a function that is [v] at [lo] and [0] after. *)
Lemma sum_range_head (f : Z -> float) (lo hi : Z) (v : float) :
  lo <= hi -> f lo = v -> (forall i, lo < i <= hi -> f i = F32.zero) ->
  F32.add F32.zero v = v -> F32.add v F32.zero = v ->
  sum_range f lo hi = v.
Proof.
  intros Hle Hlo Hz Hv0 Hv. unfold sum_range.
  replace (Z.to_nat (hi - lo + 1)) with (S (Z.to_nat (hi - lo))) by lia.
  cbn [fold_range]. rewrite Hlo, Hv0. apply fold_add_zeros; [|assumption].
  intros i Hi. apply Hz. lia.
Qed.

Lemma sum_range_zero_on (f : Z -> float) (lo hi : Z) :
  (forall i, lo <= i <= hi -> f i = F32.zero) -> sum_range f lo hi = F32.zero.
Proof.
  intros Hf. unfold sum_range. apply fold_add_zeros; [|reflexivity].
  intros i Hi. apply Hf. lia.
Qed.

(** ** FilterAutocorrelation *)

(** With a lag other than [INT_MIN], on an array of at least [L] cells. *)
Lemma autocorr_within (h : list float) (L lag : Z) :
  L <= Z.of_nat (length h) -> in_uint L -> - 2^31 < lag < 2^31 ->
  liquid_filter_autocorr h L lag = Returned (autocorr_spec h L lag).
Proof.
  intros HL HLr Hlag. unfold liquid_filter_autocorr, autocorr_spec.
  rewrite abs_defined by assumption.
  rewrite (to_uint_small (Z.abs lag)) by range.
  destruct (Z.ltb_spec (Z.abs lag) L) as [Hlt|Hge].
  - destruct (Z.geb_spec (Z.abs lag) L) as [?|_]; [lia|].
    unfold sum_range. replace (L - 1 - Z.abs lag + 1) with (L - Z.abs lag) by lia.
    apply for_loop_pure. intros j t Hj.
    rewrite Z2Nat.id in Hj by lia. unfold in_uint in HLr.
    rewrite (to_uint_small (j - Z.abs lag)) by range.
    rewrite !read_in_bounds by lia. reflexivity.
  - destruct (Z.geb_spec (Z.abs lag) L) as [_|?]; [reflexivity|lia].
Qed.

Lemma autocorr_returns (h : list float) (L lag : Z) :
  L = Z.of_nat (length h) -> in_uint L -> - 2^31 < lag < 2^31 ->
  liquid_filter_autocorr h L lag = Returned (autocorr_spec h L lag).
Proof. intros HL. apply autocorr_within. lia. Qed.

(** At [INT_MIN] the call has no defined behaviour, whatever the array. *)
Lemma autocorr_undefined (h : list float) (L : Z) :
  liquid_filter_autocorr h L (- 2^31) = Undefined.
Proof. unfold liquid_filter_autocorr. now rewrite abs_undefined. Qed.

Lemma autocorr_returns_prefix_one (x : float) (h : list float) :
  liquid_filter_autocorr (x :: h) 1 0 = Returned (F32.add F32.zero (F32.mul x x)).
Proof. reflexivity. Qed.

Lemma autocorr_spec_abs h L lag : autocorr_spec h L (Z.abs lag) = autocorr_spec h L lag.
Proof. unfold autocorr_spec. now rewrite Z.abs_idemp. Qed.

(** C3 (amended): on a coefficient vector of [L] cells, and for every
    [int] lag other than [INT_MIN], [liquid_filter_autocorr] returns the sum
    over [i = |lag| .. L-1] of [h[i] * h[i-|lag|]] when [|lag| < L] and [0]
    when [|lag| >= L]; no such lag and no length makes it fail. *)
Theorem liquid_filter_autocorr_spec (h : list float) (L lag : Z) :
  L = Z.of_nat (length h) -> in_uint L -> in_int lag -> lag <> - 2^31 ->
  (Z.abs lag < L ->
   liquid_filter_autocorr h L lag
   = Returned (sum_range (fun i => F32.mul (get h i) (get h (i - Z.abs lag)))
                 (Z.abs lag) (L - 1)))
  /\ (Z.abs lag >= L -> liquid_filter_autocorr h L lag = Returned F32.zero).
Proof.
  intros HL HLr Hlag Hmin. rewrite autocorr_returns by (try assumption; range).
  unfold autocorr_spec. split; intros H.
  - destruct (Z.ltb_spec (Z.abs lag) L); [reflexivity|lia].
  - destruct (Z.ltb_spec (Z.abs lag) L); [lia|reflexivity].
Qed.

Lemma liquid_filter_autocorr_spec_witness :
  liquid_filter_autocorr [F32.of_Z 1; F32.of_Z 2; F32.of_Z 3] 3 (-1)
  = Returned (F32.of_Z 8)
  /\ liquid_filter_autocorr [F32.of_Z 1; F32.of_Z 2; F32.of_Z 3] 3 (- (2^31 - 1))
  = Returned F32.zero.
Proof.
  split.
  - apply (liquid_filter_autocorr_spec [F32.of_Z 1; F32.of_Z 2; F32.of_Z 3] 3 (-1));
      [reflexivity | range | range | lia | simpl; lia].
  - apply (liquid_filter_autocorr_spec [F32.of_Z 1; F32.of_Z 2; F32.of_Z 3] 3
             (- (2^31 - 1)));
      [reflexivity | range | range | lia | simpl; lia].
Defined.

(** C4: the autocorrelation is even in the lag. *)
Theorem liquid_filter_autocorr_even (h : list float) (L lag : Z) :
  liquid_filter_autocorr h L (- lag) = liquid_filter_autocorr h L lag.
Proof. unfold liquid_filter_autocorr. now rewrite abs_opp. Qed.

(** ** The order of [float] *)

Lemma ltb_nan_l y : F32.ltb F32.nan y = false.
Proof. reflexivity. Qed.

Lemma ltb_nan_r x : F32.ltb x F32.nan = false.
Proof. now destruct x. Qed.

Lemma ltb_rank (x y : float) (a b : Z * Z * Z) :
  rank x = Some a -> rank y = Some b -> (F32.ltb x y = true <-> lex_lt a b).
Proof.
  unfold F32.ltb, SFltb, lex_lt.
  destruct x as [sx|sx| |sx mx ex], y as [sy|sy| |sy my ey]; cbn [rank SFcompare];
    intros Ha Hb; try discriminate;
    injection Ha as <-; injection Hb as <-;
    try (destruct sx; cbn; split; intros; try discriminate; lia);
    try (destruct sy; cbn; split; intros; try discriminate; lia);
    try (destruct sx, sy; cbn; split; intros; try discriminate; lia).
  change (Pos.compare_cont Eq mx my) with (Pos.compare mx my).
  destruct sx, sy; cbn [fst snd]; try (split; intros; try discriminate; lia).
  - destruct (Z.compare_spec ex ey); try (split; intros; try discriminate; lia).
    destruct (Pos.compare_spec mx my); cbn; split; intros; try discriminate; try lia;
      try reflexivity.
  - destruct (Z.compare_spec ex ey); try (split; intros; try discriminate; lia).
    destruct (Pos.compare_spec mx my); cbn; split; intros; try discriminate; try lia;
      try reflexivity.
Qed.

Lemma ltb_irrefl (x : float) : F32.ltb x x = false.
Proof.
  destruct (rank x) as [a|] eqn:Ha.
  - destruct (F32.ltb x x) eqn:E; [|reflexivity].
    apply (ltb_rank x x a a Ha Ha) in E. unfold lex_lt in E. lia.
  - destruct x; try discriminate. reflexivity.
Qed.

(** [x <= acc < e] leaves no room for [e < x]. *)
Lemma ltb_bound_trans (acc e x : float) :
  F32.ltb acc x = false -> F32.ltb acc e = true -> F32.ltb e x = false.
Proof.
  intros Hx He.
  destruct (rank x) as [c|] eqn:Hc; [|destruct x; try discriminate; apply ltb_nan_r].
  destruct (rank acc) as [a|] eqn:Ha; [|destruct acc; discriminate].
  destruct (rank e) as [b|] eqn:Hb;
    [|destruct e; try discriminate; now rewrite ltb_nan_r in He].
  apply (ltb_rank acc e a b Ha Hb) in He.
  destruct (F32.ltb e x) eqn:E; [|reflexivity].
  apply (ltb_rank e x b c Hb Hc) in E.
  assert (Hlt : lex_lt a c) by (unfold lex_lt in *; lia).
  apply (ltb_rank acc x a c Ha Hc) in Hlt. congruence.
Qed.

Lemma fmax_fold_is_max (f : Z -> float) n :
  forall lo j acc,
    lo <= j ->
    is_max_range f lo (j - 1) acc ->
    is_max_range f lo (j - 1 + Z.of_nat n)
      (fold_range n j (fun i acc => fmax acc (f i)) acc).
Proof.
  induction n as [|n IH]; intros lo j acc Hj Hacc.
  - cbn [fold_range]. now rewrite Z.add_0_r.
  - cbn [fold_range].
    replace (j - 1 + Z.of_nat (S n)) with (j + 1 - 1 + Z.of_nat n) by lia.
    apply IH; [lia|].
    replace (j + 1 - 1) with j by lia.
    destruct Hacc as [(w & Hw & Ew) Hub]. unfold fmax.
    destruct (F32.ltb acc (f j)) eqn:E; split.
    + exists j. split; [lia|reflexivity].
    + intros i Hi. destruct (Z.eq_dec i j) as [->|Hne]; [apply ltb_irrefl|].
      apply (ltb_bound_trans acc); [apply Hub; lia | exact E].
    + exists w. split; [lia|exact Ew].
    + intros i Hi. destruct (Z.eq_dec i j) as [->|Hne]; [exact E|]. apply Hub. lia.
Qed.

Lemma max_range_is_max (f : Z -> float) (lo hi : Z) :
  lo <= hi -> is_max_range f lo hi (max_range f lo hi).
Proof.
  intros Hle. unfold max_range.
  replace hi with (lo + 1 - 1 + Z.of_nat (Z.to_nat (hi - lo))) at 1 by lia.
  apply fmax_fold_is_max; [lia|].
  replace (lo + 1 - 1) with lo by lia. split.
  - exists lo. split; [lia|reflexivity].
  - intros i Hi. replace i with lo by lia. apply ltb_irrefl.
Qed.

(** ** ISIAnalyzer *)

Lemma isi_step_fold (e : Z -> float) n :
  forall lo a b, 1 < lo ->
    fold_range n lo (isi_step e) (a, b)
    = (fold_range n lo (fun i acc => F32.add acc (F32.mul (e i) (e i))) a,
       fold_range n lo (fun i acc => fmax acc (e i)) b).
Proof.
  induction n as [|n IH]; intros lo a b Hlo; [reflexivity|].
  cbn [fold_range]. unfold isi_step at 2. cbn [fst snd].
  destruct (Z.eqb_spec lo 1) as [?|_]; [lia|]. cbn [orb].
  rewrite IH by lia. reflexivity.
Qed.

Lemma lag_of_uint x :
  0 <= x < 2^31 ->
  - 2^31 < to_int (to_uint x) < 2^31 /\ Z.abs (to_int (to_uint x)) = x.
Proof.
  intros Hx. rewrite to_uint_small by range.
  rewrite to_int_small by range. lia.
Qed.

Lemma isi_h_len k m :
  0 <= k -> 1 <= m -> 2 * k * m <= 2^31 ->
  to_uint (to_uint (to_uint (2 * k) * m) + 1) = 2 * k * m + 1.
Proof.
  intros Hk Hm Hkm.
  assert (2 * k <= 2 * k * m) by nia.
  rewrite (to_uint_small (2 * k)) by range.
  rewrite (to_uint_small (2 * k * m)) by range.
  apply to_uint_small. range.
Qed.

Lemma isi_returns_spec (h : list float) (k m : Z) :
  0 <= k -> 1 <= m < 2^31 -> 2 * k * m < 2^31 ->
  Z.of_nat (length h) = 2 * k * m + 1 ->
  liquid_filter_isi h k m = Returned (isi_mse_spec h k m, isi_max_spec h k m).
Proof.
  intros Hk Hm Hkm Hlen. unfold liquid_filter_isi.
  rewrite isi_h_len by lia.
  assert (HL : in_uint (2 * k * m + 1)) by range.
  rewrite autocorr_returns by (try assumption; try range; lia).
  cbn [bind].
  rewrite (for_loop_pure (isi_step (isi_e h k m))).
  - unfold isi_iterations, isi_divisor.
    rewrite (to_uint_small (2 * m)) by range.
    replace (Z.to_nat (2 * m)) with (S (Z.to_nat (2 * m - 1))) by lia.
    cbn [bind fold_range]. unfold isi_step at 2. cbn [fst snd Z.eqb orb].
    rewrite isi_step_fold by lia. f_equal. unfold isi_mse_spec, isi_max_spec.
    f_equal. f_equal. unfold sum_range.
    replace (Z.to_nat (2 * m - 1 + 1)) with (S (Z.to_nat (2 * m - 1))) by lia.
    reflexivity.
  - intros j [a b] Hj. unfold isi_iterations in Hj.
    rewrite (to_uint_small (2 * m)) in Hj by range.
    rewrite Z2Nat.id in Hj by lia.
    assert (Hjk : 0 <= j * k < 2^31) by nia.
    destruct (lag_of_uint (j * k) Hjk) as [Hin Habs].
    unfold isi_body. rewrite autocorr_returns by (try assumption; lia).
    cbn [bind]. rewrite <- autocorr_spec_abs, Habs. reflexivity.
Qed.

(** A lag that is [INT_MIN] as an [int] ends the analysis in
    [abs(INT_MIN)]. *)
Lemma isi_undefined (h : list float) (k m j : Z) :
  isi_length k m <= Z.of_nat (length h) ->
  1 <= j <= to_uint (2 * m) -> isi_lag k j = - 2^31 ->
  liquid_filter_isi h k m = Undefined.
Proof.
  intros Hlen Hj Hlag.
  pose proof (to_uint_range (to_uint (to_uint (2 * k) * m) + 1)) as HL.
  unfold liquid_filter_isi. fold (isi_length k m) in *.
  rewrite autocorr_within by (try assumption; range). cbn [bind].
  rewrite (for_loop_undefined _ _ _ j); [reflexivity | | |].
  - unfold isi_iterations. lia.
  - intros i [a b] _. unfold isi_body.
    pose proof (to_int_range (to_uint (i * k))) as Hr. unfold in_int in Hr.
    destruct (Z.eq_dec (to_int (to_uint (i * k))) (- 2^31)) as [E|E].
    + rewrite E, autocorr_undefined. now left.
    + rewrite autocorr_within by (try assumption; range). cbn [bind]. eauto.
  - intros [a b]. unfold isi_body. unfold isi_lag in Hlag.
    now rewrite Hlag, autocorr_undefined.
Qed.

(** C1 (amended): for [1 <= m < 2^31] and [2 k m < 2^31], on a vector of
    exactly [2 k m + 1] coefficients with [r(0) != 0], [liquid_filter_isi]
    stores [mse = (sum over i = 1..2m of e_i^2) / (2m)] and
    [max = max over i = 1..2m of e_i], with [e_i = |r(i k) / r(0)|]: the
    stored maximum is one of the [e_i] and no [e_i] is greater. *)
Theorem liquid_filter_isi_spec (h : list float) (k m : Z) :
  0 <= k -> 1 <= m < 2^31 -> 2 * k * m < 2^31 ->
  Z.of_nat (length h) = 2 * k * m + 1 ->
  F32.eqb (autocorr_spec h (2 * k * m + 1) 0) F32.zero = false ->
  liquid_filter_isi h k m = Returned (isi_mse_spec h k m, isi_max_spec h k m)
  /\ is_max_range (isi_e h k m) 1 (2 * m) (isi_max_spec h k m).
Proof.
  intros Hk Hm Hkm Hlen _. split; [now apply isi_returns_spec|].
  apply max_range_is_max. lia.
Qed.

Lemma liquid_filter_isi_spec_witness :
  liquid_filter_isi [F32.one; F32.zero; F32.one; F32.zero; F32.half] 2 1
  = Returned (isi_mse_spec [F32.one; F32.zero; F32.one; F32.zero; F32.half] 2 1,
              isi_max_spec [F32.one; F32.zero; F32.one; F32.zero; F32.half] 2 1)
  /\ is_max_range (isi_e [F32.one; F32.zero; F32.one; F32.zero; F32.half] 2 1) 1 (2 * 1)
       (isi_max_spec [F32.one; F32.zero; F32.one; F32.zero; F32.half] 2 1).
Proof.
  apply (liquid_filter_isi_spec [F32.one; F32.zero; F32.one; F32.zero; F32.half] 2 1);
    [lia | lia | lia | reflexivity | reflexivity].
Defined.

Lemma max_range_const (f : Z -> float) (c : float) (lo hi : Z) :
  (forall i, f i = c) -> max_range f lo hi = c.
Proof.
  intros Hf. unfold max_range. rewrite Hf.
  generalize (lo + 1). induction (Z.to_nat (hi - lo)) as [|n IH]; intros j; [reflexivity|].
  cbn [fold_range]. unfold fmax at 2. rewrite Hf.
  destruct (F32.ltb c c); apply IH.
Qed.

(** The bound on [m] is needed: when [2*_m] wraps around, with [k = 0] and
    [m = 2^31], the one-coefficient vector [[1.0f]] has length [2 k m + 1]
    and [r(0) = 1], the loop body never runs, and the stored maximum is [0]
    where every [e_i] is [1]. *)
Lemma liquid_filter_isi_wraps :
  1 <= 2^31
  /\ Z.of_nat (length [F32.one]) = 2 * 0 * 2^31 + 1
  /\ F32.eqb (autocorr_spec [F32.one] (2 * 0 * 2^31 + 1) 0) F32.zero = false
  /\ liquid_filter_isi [F32.one] 0 (2^31) = Returned (F32.nan, F32.zero)
  /\ liquid_filter_isi [F32.one] 0 (2^31)
     <> Returned (isi_mse_spec [F32.one] 0 (2^31), isi_max_spec [F32.one] 0 (2^31))
  /\ ~ is_max_range (isi_e [F32.one] 0 (2^31)) 1 (2 * 2^31) F32.zero.
Proof.
  assert (He : forall i, isi_e [F32.one] 0 (2^31) i = F32.one).
  { intros i. unfold isi_e. rewrite (Z.mul_0_r i). reflexivity. }
  assert (Hcode : liquid_filter_isi [F32.one] 0 (2^31) = Returned (F32.nan, F32.zero))
    by (vm_compute; reflexivity).
  split; [lia|]. split; [reflexivity|]. split; [reflexivity|]. split; [exact Hcode|].
  split.
  - assert (Hmax : isi_max_spec [F32.one] 0 (2^31) = F32.one)
      by (unfold isi_max_spec; now apply max_range_const).
    rewrite Hcode, Hmax.
    generalize (isi_mse_spec [F32.one] 0 (2^31)). intros mse H. discriminate H.
  - intros [_ Hub]. specialize (Hub 1). rewrite He in Hub.
    assert (H1 : 1 <= 1 <= 2 * 2^31) by lia. specialize (Hub H1). discriminate Hub.
Qed.

(** *** Lags that leave the range of [int] *)

Lemma far_pulses_length : Z.of_nat (length far_pulses) = 2^31 + 3.
Proof.
  unfold far_pulses. rewrite length_cons, length_app, length_replicate, length_cons,
    length_replicate. lia.
Qed.

Lemma far_pulses_get i :
  0 <= i ->
  get far_pulses i = if (i =? 0) || (i =? 2^31 - 2) then F32.one else F32.zero.
Proof.
  intros Hi. unfold get, far_pulses.
  destruct (Z.eqb_spec i 0) as [->|H0]; [reflexivity|]. cbn [orb].
  rewrite lookup_cons_ne_0 by lia.
  destruct (Z.lt_ge_cases i (2^31 - 2)) as [Hlt|Hge].
  - destruct (Z.eqb_spec i (2^31 - 2)); [lia|].
    rewrite lookup_app_l by (rewrite length_replicate; lia).
    rewrite lookup_replicate_2 by lia. reflexivity.
  - rewrite lookup_app_r by (rewrite length_replicate; lia).
    rewrite length_replicate.
    destruct (Z.eqb_spec i (2^31 - 2)) as [->|Hne].
    + replace (Nat.pred (Z.to_nat (2^31 - 2)) - Z.to_nat (2^31 - 3))%nat with 0%nat by lia.
      reflexivity.
    + rewrite lookup_cons_ne_0 by lia.
      destruct (replicate 4 F32.zero !! _) as [x|] eqn:E; [|reflexivity].
      apply lookup_replicate in E. now destruct E as [-> _].
Qed.

Lemma far_pulses_r0 :
  autocorr_spec far_pulses (2^31 + 3) 0 = F32.of_Z 2.
Proof.
  unfold autocorr_spec. change (Z.abs 0) with 0. change (0 <? 2^31 + 3) with true.
  cbv iota. unfold sum_range.
  replace (Z.to_nat (2^31 + 3 - 1 - 0 + 1))
    with (1 + (Z.to_nat (2^31 - 3) + (1 + 4)))%nat by lia.
  rewrite fold_range_app. rewrite fold_range_app. rewrite fold_range_app.
  set (g := fun (i : Z) (acc : float) =>
              F32.add acc (F32.mul (get far_pulses i) (get far_pulses (i - 0)))).
  assert (H1 : fold_range 1 0 g F32.zero = F32.one).
  { cbn [fold_range]. unfold g. rewrite !far_pulses_get by lia. reflexivity. }
  rewrite H1.
  assert (H2 : fold_range (Z.to_nat (2^31 - 3)) (0 + Z.of_nat 1) g F32.one = F32.one).
  { apply (fold_add_zeros (fun i => F32.mul (get far_pulses i) (get far_pulses (i - 0))));
      [|reflexivity].
    intros i Hi. rewrite !far_pulses_get by lia.
    replace (i - 0) with i by lia.
    destruct (Z.eqb_spec i 0); [lia|]. destruct (Z.eqb_spec i (2^31 - 2)); [lia|].
    reflexivity. }
  rewrite H2.
  assert (H3 : fold_range 1 (0 + Z.of_nat 1 + Z.of_nat (Z.to_nat (2^31 - 3))) g F32.one
               = F32.of_Z 2).
  { replace (0 + Z.of_nat 1 + Z.of_nat (Z.to_nat (2^31 - 3))) with (2^31 - 2) by lia.
    cbn [fold_range]. unfold g. rewrite !far_pulses_get by lia. reflexivity. }
  rewrite H3.
  apply (fold_add_zeros (fun i => F32.mul (get far_pulses i) (get far_pulses (i - 0))));
    [|reflexivity].
  intros i Hi. rewrite !far_pulses_get by lia.
  replace (i - 0) with i by lia.
  destruct (Z.eqb_spec i 0); [lia|]. destruct (Z.eqb_spec i (2^31 - 2)); [lia|].
  reflexivity.
Qed.

Lemma far_pulses_r_zero lag :
  0 < lag -> lag <> 2^31 - 2 -> autocorr_spec far_pulses (2^31 + 3) lag = F32.zero.
Proof.
  intros Hpos Hne. unfold autocorr_spec. rewrite Z.abs_eq by lia.
  destruct (lag <? 2^31 + 3); [|reflexivity].
  apply sum_range_zero_on.
  intros i Hi. rewrite !far_pulses_get by lia.
  destruct (Z.eqb_spec i 0); [lia|]. cbn [orb].
  destruct (Z.eqb_spec i (2^31 - 2)) as [->|_].
  - destruct (Z.eqb_spec (2^31 - 2 - lag) 0); [lia|].
    destruct (Z.eqb_spec (2^31 - 2 - lag) (2^31 - 2)); [lia|]. reflexivity.
  - now destruct ((i - lag =? 0) || (i - lag =? 2^31 - 2)).
Qed.

Lemma far_pulses_r_gap :
  autocorr_spec far_pulses (2^31 + 3) (2^31 - 2) = F32.one.
Proof.
  unfold autocorr_spec. change (Z.abs (2^31 - 2) <? 2^31 + 3) with true.
  change (Z.abs (2^31 - 2)) with (2^31 - 2). cbv iota.
  apply (sum_range_head _ _ _ F32.one); [lia | | | reflexivity | reflexivity].
  - rewrite !far_pulses_get by lia. reflexivity.
  - intros i Hi. rewrite !far_pulses_get by lia.
    destruct (Z.eqb_spec i 0); [lia|]. destruct (Z.eqb_spec i (2^31 - 2)); [lia|].
    cbn [orb]. now destruct ((i - (2^31 - 2) =? 0) || (i - (2^31 - 2) =? 2^31 - 2)).
Qed.

(** C1 as stated fails when a lag [i*_k] leaves the range of [int]: with
    [m = 1] and [k = 2^30 + 1], on the [2 k m + 1] coefficients of
    [far_pulses] ([r(0) = 2]), the lag [2 k = 2^31 + 2] becomes the [int]
    [-(2^31 - 2)]: the code correlates at [2^31 - 2], the distance of the
    two pulses, and stores [max = 0.5] where [e_1 = e_2 = 0]. *)
Lemma liquid_filter_isi_lag_wraps :
  1 <= 1
  /\ Z.of_nat (length far_pulses) = 2 * (2^30 + 1) * 1 + 1
  /\ F32.eqb (autocorr_spec far_pulses (2 * (2^30 + 1) * 1 + 1) 0) F32.zero = false
  /\ liquid_filter_isi far_pulses (2^30 + 1) 1
     = Returned (F32.div F32.one (F32.of_Z 8), F32.half)
  /\ ~ is_max_range (isi_e far_pulses (2^30 + 1) 1) 1 (2 * 1) F32.half.
Proof.
  split; [lia|]. split; [rewrite far_pulses_length; lia|]. split; [|split].
  - change (2 * (2^30 + 1) * 1 + 1) with (2^31 + 3). now rewrite far_pulses_r0.
  - unfold liquid_filter_isi.
    change (to_uint (to_uint (to_uint (2 * (2^30 + 1)) * 1) + 1)) with (2^31 + 3).
    rewrite autocorr_returns, far_pulses_r0;
      [| now rewrite far_pulses_length | range | range].
    cbn [bind]. change (isi_iterations 1) with 2%nat. cbn [for_loop].
    unfold isi_body at 1.
    change (to_int (to_uint (1 * (2^30 + 1)))) with (2^30 + 1).
    rewrite autocorr_returns, far_pulses_r_zero;
      [| lia | lia | now rewrite far_pulses_length | range | range].
    cbn [bind]. unfold isi_body at 1.
    change (to_int (to_uint ((1 + 1) * (2^30 + 1)))) with (- (2^31 - 2)).
    rewrite autocorr_returns, <- autocorr_spec_abs;
      [| now rewrite far_pulses_length | range | range].
    change (Z.abs (- (2^31 - 2))) with (2^31 - 2). rewrite far_pulses_r_gap.
    reflexivity.
  - intros [(j & Hj & Ej) _]. unfold isi_e in Ej.
    assert (Hz : autocorr_spec far_pulses (2 * (2^30 + 1) * 1 + 1) (j * (2^30 + 1))
                 = F32.zero).
    { change (2 * (2^30 + 1) * 1 + 1) with (2^31 + 3). apply far_pulses_r_zero; lia. }
    rewrite Hz in Ej. change (2 * (2^30 + 1) * 1 + 1) with (2^31 + 3) in Ej.
    rewrite far_pulses_r0 in Ej. discriminate Ej.
Qed.

(** The bound [2 k m < 2^31] of C1 is sharp: with [m = 1] and [k = 2^30]
    the last lag is [2^31], which is [INT_MIN] as an [int], and the call
    ends in [abs(INT_MIN)]. *)
Lemma liquid_filter_isi_int_min (h : list float) :
  Z.of_nat (length h) = 2 * 2^30 * 1 + 1 -> liquid_filter_isi h (2^30) 1 = Undefined.
Proof.
  intros Hlen. unfold liquid_filter_isi.
  change (to_uint (to_uint (to_uint (2 * 2^30) * 1) + 1)) with (2^31 + 1).
  rewrite autocorr_returns by (try range; lia).
  cbn [bind]. change (isi_iterations 1) with 2%nat. cbn [for_loop].
  unfold isi_body at 1. change (to_int (to_uint (1 * 2^30))) with (2^30).
  rewrite autocorr_returns by (try range; lia).
  cbn [bind]. unfold isi_body at 1.
  change (to_int (to_uint ((1 + 1) * 2^30))) with (- 2^31).
  now rewrite autocorr_undefined.
Qed.

(** C3 as stated fails at [lag = INT_MIN]: on the [2^31 + 3] coefficients
    of [far_pulses], where [|lag| = 2^31 < L], the call evaluates
    [abs(INT_MIN)], whose behaviour is undefined, and returns no sum. *)
Lemma liquid_filter_autocorr_int_min :
  Z.of_nat (length far_pulses) = 2^31 + 3
  /\ in_uint (2^31 + 3) /\ in_int (- 2^31) /\ Z.abs (- 2^31) < 2^31 + 3
  /\ liquid_filter_autocorr far_pulses (2^31 + 3) (- 2^31) = Undefined
  /\ liquid_filter_autocorr far_pulses (2^31 + 3) (- 2^31)
     <> Returned (sum_range (fun i => F32.mul (get far_pulses i)
                                       (get far_pulses (i - Z.abs (- 2^31))))
                   (Z.abs (- 2^31)) (2^31 + 3 - 1)).
Proof.
  split; [apply far_pulses_length|]. split; [range|]. split; [range|].
  split; [change (Z.abs (- 2^31)) with (2^31); lia|].
  rewrite autocorr_undefined. split; [reflexivity|].
  generalize (sum_range (fun i => F32.mul (get far_pulses i)
                                    (get far_pulses (i - Z.abs (- 2^31))))
                (Z.abs (- 2^31)) (2^31 + 3 - 1)).
  intros r H. discriminate H.
Qed.

(** ** Non-finite values *)

Lemma add_nan_r x : F32.add x F32.nan = F32.nan.
Proof. destruct x; reflexivity. Qed.

Lemma div_nan_l y : F32.div F32.nan y = F32.nan.
Proof. reflexivity. Qed.

Lemma sum_range_nan (f : Z -> float) (lo hi : Z) :
  lo <= hi -> (forall i, f i = F32.nan) -> sum_range f lo hi = F32.nan.
Proof.
  intros Hle Hf. unfold sum_range.
  replace (Z.to_nat (hi - lo + 1)) with (S (Z.to_nat (hi - lo))) by lia.
  cbn [fold_range]. rewrite Hf, add_nan_r.
  generalize (lo + 1). induction (Z.to_nat (hi - lo)) as [|n IH]; intros j; [reflexivity|].
  cbn [fold_range]. rewrite Hf, add_nan_r. apply IH.
Qed.

Lemma get_replicate_zero n i : get (replicate n F32.zero) i = F32.zero.
Proof.
  unfold get. destruct (replicate n F32.zero !! Z.to_nat i) as [x|] eqn:E; [|reflexivity].
  apply lookup_replicate in E. now destruct E as [-> _].
Qed.

Lemma autocorr_spec_zero_filter n L lag :
  autocorr_spec (replicate n F32.zero) L lag = F32.zero.
Proof.
  unfold autocorr_spec. destruct (Z.abs lag <? L); [|reflexivity].
  apply sum_range_zero_on. intros i _. now rewrite !get_replicate_zero.
Qed.

(** C2: the zero reference is neither guarded nor reported.  On the all-zero
    vector of [2 k m + 1] coefficients, [m >= 1], the reference [r(0)] is
    [0], every term is divided by it, and the call returns normally with
    the results of [0/0] in both outputs (for [2 k m = 2^31] the last lag
    is [INT_MIN] and the call is undefined). *)
Theorem liquid_filter_isi_zero_reference (k m : Z) :
  0 <= k -> 1 <= m < 2^31 -> 2 * k * m <= 2^31 ->
  liquid_filter_autocorr (replicate (Z.to_nat (2 * k * m + 1)) F32.zero) (2 * k * m + 1) 0
  = Returned F32.zero
  /\ (forall i, isi_e (replicate (Z.to_nat (2 * k * m + 1)) F32.zero) k m i
                = F32.abs (F32.div F32.zero F32.zero))
  /\ liquid_filter_isi (replicate (Z.to_nat (2 * k * m + 1)) F32.zero) k m
     = if 2 * k * m <? 2^31 then Returned (F32.nan, F32.nan) else Undefined.
Proof.
  intros Hk Hm Hkm.
  assert (Hlen : Z.of_nat (length (replicate (Z.to_nat (2 * k * m + 1)) F32.zero))
                 = 2 * k * m + 1) by (rewrite length_replicate; lia).
  assert (He : forall i, isi_e (replicate (Z.to_nat (2 * k * m + 1)) F32.zero) k m i
                         = F32.abs (F32.div F32.zero F32.zero)).
  { intros i. unfold isi_e. now rewrite !autocorr_spec_zero_filter. }
  split; [|split; [exact He|]].
  - rewrite autocorr_returns by range.
    now rewrite autocorr_spec_zero_filter.
  - destruct (Z.ltb_spec (2 * k * m) (2^31)) as [Hlt|Hge].
    + rewrite isi_returns_spec by assumption. f_equal. f_equal.
      * unfold isi_mse_spec. rewrite sum_range_nan; [reflexivity|lia|].
        intros i. now rewrite He.
      * unfold isi_max_spec. now apply max_range_const.
    + apply (isi_undefined _ k m (2 * m)).
      * unfold isi_length. rewrite isi_h_len by lia. lia.
      * rewrite (to_uint_small (2 * m)) by range. lia.
      * unfold isi_lag. replace (2 * m * k) with (2^31) by lia. reflexivity.
Qed.

Lemma liquid_filter_isi_zero_reference_witness :
  liquid_filter_isi (replicate (Z.to_nat (2 * 2 * 1 + 1)) F32.zero) 2 1
  = Returned (F32.nan, F32.nan).
Proof.
  apply (liquid_filter_isi_zero_reference 2 1); lia.
Defined.

(** ** Rounding keeps a nonzero value nonzero

    A positive mantissa whose value is above [2^emin] is shifted by fewer
    bits than it has digits, so that neither of the two shifts of
    [binary_round_aux] empties it. *)

Section Rounding.

Variables prec emax : Z.
Hypothesis prec_pos : 0 < prec.

Lemma shr_1_m r : 0 <= shr_m r -> shr_m (shr_1 r) = shr_m r / 2.
Proof.
  destruct r as [m rb sb]. cbn [shr_m shr_1].
  destruct m as [|[p|p|]|p]; cbn [shr_m]; intros H.
  - reflexivity.
  - apply Z.div_unique with 1; lia.
  - apply Z.div_unique with 0; lia.
  - reflexivity.
  - lia.
Qed.

Lemma iter_shr_1_m p :
  forall r, 0 <= shr_m r -> shr_m (SpecFloat.iter_pos shr_1 p r) = shr_m r / 2 ^ Zpos p.
Proof.
  induction p as [p IH|p IH|]; intros r Hr; cbn [SpecFloat.iter_pos].
  - assert (H1 : 0 <= shr_m (shr_1 r)) by (rewrite shr_1_m by lia; apply Z.div_pos; lia).
    assert (H2 : 0 <= shr_m (SpecFloat.iter_pos shr_1 p (shr_1 r)))
      by (rewrite IH by lia; apply Z.div_pos; lia).
    assert (E : 2 ^ Zpos p~1 = 2 * 2 ^ Zpos p * 2 ^ Zpos p).
    { rewrite (Pos2Z.inj_xI p). replace (2 * Zpos p + 1) with (1 + Zpos p + Zpos p) by lia.
      rewrite !Z.pow_add_r by lia. reflexivity. }
    rewrite IH, IH, shr_1_m, E by lia.
    rewrite !Z.div_div by lia. f_equal. lia.
  - assert (H2 : 0 <= shr_m (SpecFloat.iter_pos shr_1 p r))
      by (rewrite IH by lia; apply Z.div_pos; lia).
    assert (E : 2 ^ Zpos p~0 = 2 ^ Zpos p * 2 ^ Zpos p).
    { rewrite (Pos2Z.inj_xO p). replace (2 * Zpos p) with (Zpos p + Zpos p) by lia.
      rewrite !Z.pow_add_r by lia. reflexivity. }
    rewrite IH, IH, E by lia.
    rewrite !Z.div_div by lia. reflexivity.
  - rewrite shr_1_m by lia. reflexivity.
Qed.

Lemma shr_spec r e n :
  0 <= shr_m r ->
  shr_m (fst (shr r e n)) = shr_m r / 2 ^ Z.max n 0
  /\ snd (shr r e n) = e + Z.max n 0.
Proof.
  intros Hr. unfold shr. destruct n as [|p|p]; cbn [fst snd].
  - rewrite Z.div_1_r. lia.
  - rewrite iter_shr_1_m by lia. rewrite Z.max_l by lia. lia.
  - rewrite Z.div_1_r. lia.
Qed.

Lemma digits2_lower p : 2 ^ (Zpos (digits2_pos p) - 1) <= Zpos p.
Proof.
  induction p as [p IH|p IH|]; cbn [digits2_pos]; [| |reflexivity].
  - rewrite (Pos2Z.inj_succ (digits2_pos p)), (Pos2Z.inj_xI p).
    replace (Z.succ (Zpos (digits2_pos p)) - 1) with (Z.succ (Zpos (digits2_pos p) - 1)) by lia.
    rewrite Z.pow_succ_r by lia. lia.
  - rewrite (Pos2Z.inj_succ (digits2_pos p)), (Pos2Z.inj_xO p).
    replace (Z.succ (Zpos (digits2_pos p)) - 1) with (Z.succ (Zpos (digits2_pos p) - 1)) by lia.
    rewrite Z.pow_succ_r by lia. lia.
Qed.

Lemma digits2_upper p : Zpos p < 2 ^ Zpos (digits2_pos p).
Proof.
  induction p as [p IH|p IH|]; cbn [digits2_pos]; [| |reflexivity].
  - rewrite (Pos2Z.inj_succ (digits2_pos p)), (Pos2Z.inj_xI p), Z.pow_succ_r by lia. lia.
  - rewrite (Pos2Z.inj_succ (digits2_pos p)), (Pos2Z.inj_xO p), Z.pow_succ_r by lia. lia.
Qed.

Lemma shr_fexp_spec m e l :
  emin prec emax < Zpos (digits2_pos m) + e ->
  exists m', shr_m (fst (shr_fexp prec emax (Zpos m) e l)) = Zpos m'
    /\ Zpos (digits2_pos m) + e
       <= Zpos (digits2_pos m') + snd (shr_fexp prec emax (Zpos m) e l).
Proof.
  intros He. unfold shr_fexp. cbn [Zdigits2].
  set (d := Zpos (digits2_pos m)) in *.
  set (n := fexp prec emax (d + e) - e).
  assert (Hn : Z.max n 0 <= d - 1) by (unfold n, fexp; lia).
  assert (Hm : shr_m (shr_record_of_loc (Zpos m) l) = Zpos m)
    by (destruct l as [|[]]; reflexivity).
  destruct (shr_spec (shr_record_of_loc (Zpos m) l) e n) as [E1 E2]; [rewrite Hm; lia|].
  rewrite E2, E1, Hm.
  assert (Hlow : 2 ^ (d - 1 - Z.max n 0) <= Zpos m / 2 ^ Z.max n 0).
  { apply Z.div_le_lower_bound; [lia|].
    rewrite <- Z.pow_add_r by lia.
    replace (Z.max n 0 + (d - 1 - Z.max n 0)) with (d - 1) by lia.
    apply digits2_lower. }
  assert (0 < 2 ^ (d - 1 - Z.max n 0)) by (apply Z.pow_pos_nonneg; lia).
  destruct (Zpos m / 2 ^ Z.max n 0) as [|m'|m'] eqn:Em; try lia.
  exists m'. split; [reflexivity|].
  pose proof (digits2_upper m') as Hup.
  assert (d - 1 - Z.max n 0 < Zpos (digits2_pos m')).
  { apply (Z.pow_lt_mono_r_iff 2); lia. }
  lia.
Qed.

Lemma round_nearest_even_pos m l :
  exists m', round_nearest_even (Zpos m) l = Zpos m'
    /\ Zpos (digits2_pos m) <= Zpos (digits2_pos m').
Proof.
  assert (Hs : exists m', Zpos m + 1 = Zpos m'
                 /\ Zpos (digits2_pos m) <= Zpos (digits2_pos m')).
  { exists (m + 1)%positive. split; [lia|].
    pose proof (digits2_lower m). pose proof (digits2_upper (m + 1)).
    assert (Zpos (digits2_pos m) - 1 < Zpos (digits2_pos (m + 1))); [|lia].
    apply (Z.pow_lt_mono_r_iff 2); lia. }
  assert (Hr : exists m', Zpos m = Zpos m'
                 /\ Zpos (digits2_pos m) <= Zpos (digits2_pos m'))
    by (exists m; split; [reflexivity|lia]).
  unfold round_nearest_even.
  destruct l as [|[]]; try assumption.
  destruct (Z.even (Zpos m)); assumption.
Qed.

Lemma binary_round_aux_nonzero s m e l :
  emin prec emax < Zpos (digits2_pos m) + e ->
  nonzero (binary_round_aux prec emax s (Zpos m) e l).
Proof.
  intros He. unfold binary_round_aux.
  destruct (shr_fexp_spec m e l He) as (m1 & E1 & D1).
  destruct (shr_fexp prec emax (Zpos m) e l) as [r1 e1]. cbn [fst snd] in *.
  rewrite E1.
  destruct (round_nearest_even_pos m1 (loc_of_shr_record r1)) as (m2 & E2 & D2).
  rewrite E2.
  destruct (shr_fexp_spec m2 e1 loc_Exact) as (m3 & E3 & _); [lia|].
  destruct (shr_fexp prec emax (Zpos m2) e1 loc_Exact) as [r3 e3]. cbn [fst snd] in *.
  rewrite E3. now destruct (e3 <=? emax - prec).
Qed.

Lemma binary_round_nonzero s m e :
  emin prec emax < Zpos (digits2_pos m) + e ->
  nonzero (binary_round prec emax s m e).
Proof.
  intros He. unfold binary_round, shl_align.
  set (d := Zpos (digits2_pos m)) in *.
  destruct (fexp prec emax (d + e) - e) as [|q|q] eqn:Eq;
    apply binary_round_aux_nonzero; fold d; try lia.
  unfold fexp in *. lia.
Qed.

End Rounding.

Lemma of_Z_nonzero z : 0 < z -> F32.eqb (F32.of_Z z) F32.zero = false.
Proof.
  intros Hz. destruct z as [|p|p]; try lia.
  unfold F32.of_Z, binary_normalize.
  pose proof (binary_round_nonzero F32.prec F32.emax eq_refl false p 0) as H.
  destruct (binary_round F32.prec F32.emax false p 0) as [| s | |s m e].
  - destruct H. unfold emin, F32.prec, F32.emax. lia.
  - now destruct s.
  - destruct H. unfold emin, F32.prec, F32.emax. lia.
  - now destruct s.
Qed.

(** C10 (amended): with [m = 0] the loop runs zero times, the mean-squared
    output is [0] divided by [(float)(2*m) = 0] and the maximum is [0];
    the divisor is nonzero for every other [unsigned int] [m] but [2^31],
    where [2*_m] wraps around to [0]. *)
Theorem liquid_filter_isi_zero_delay :
  (forall (h : list float) (k : Z),
      h <> [] ->
      isi_iterations 0 = 0%nat
      /\ isi_divisor 0 = F32.zero
      /\ F32.div F32.zero (isi_divisor 0) = F32.nan
      /\ liquid_filter_isi h k 0 = Returned (F32.nan, F32.zero))
  /\ (forall m : Z, in_uint m -> 1 <= m -> m <> 2^31 ->
      F32.eqb (isi_divisor m) F32.zero = false).
Proof.
  split.
  - intros h k Hh. repeat split.
    unfold liquid_filter_isi. rewrite Z.mul_0_r.
    change (to_uint (to_uint 0 + 1)) with 1.
    destruct h as [|x h]; [congruence|].
    rewrite (autocorr_returns_prefix_one x h). reflexivity.
  - intros m Hm H1 Hne. unfold isi_divisor. apply of_Z_nonzero.
    unfold in_uint, to_uint in *.
    destruct (Z.lt_ge_cases m (2^31)).
    + rewrite Z.mod_small; lia.
    + replace (2 * m) with (2 * m - 2^32 + 1 * 2^32) by lia.
      rewrite Z.mod_add by lia. rewrite Z.mod_small; lia.
Qed.

Lemma liquid_filter_isi_zero_delay_witness :
  liquid_filter_isi [F32.one; F32.half] 7 0 = Returned (F32.nan, F32.zero)
  /\ F32.eqb (isi_divisor 3) F32.zero = false.
Proof.
  split.
  - apply (proj1 liquid_filter_isi_zero_delay [F32.one; F32.half] 7). discriminate.
  - apply (proj2 liquid_filter_isi_zero_delay 3); [unfold in_uint; lia | lia | lia].
Defined.

(** C10 as stated fails at [m = 2^31]: [m >= 1] and the divisor
    [(float)(2*_m)] is zero. *)
Lemma isi_divisor_wraps : 1 <= 2^31 /\ in_uint (2^31) /\ isi_divisor (2^31) = F32.zero.
Proof. split; [lia|]. split; [unfold in_uint; lia|reflexivity]. Qed.

(** ** Comparisons of [float] *)

Lemma SFcompare_antisym (x y : float) :
  SFcompare y x = option_map CompOpp (SFcompare x y).
Proof.
  destruct x as [sx|sx| |sx mx ex], y as [sy|sy| |sy my ey]; cbn;
    try reflexivity; try (destruct sx; reflexivity); try (destruct sy; reflexivity);
    try (destruct sx, sy; reflexivity).
  pose proof (Pos.compare_cont_antisym mx my Eq) as HP. cbn [CompOpp] in HP.
  destruct sx, sy; try reflexivity; f_equal;
    rewrite (Z.compare_antisym ex ey), <- HP;
    destruct (ex ?= ey); cbn; try reflexivity;
    destruct (Pos.compare_cont Eq mx my); reflexivity.
Qed.

Lemma leb_not_gt (x y : float) : F32.leb x y = true -> F32.ltb y x = false.
Proof.
  unfold F32.leb, F32.ltb, SFleb, SFltb. rewrite (SFcompare_antisym x y).
  destruct (SFcompare x y) as [[]|]; cbn; congruence.
Qed.

Lemma ltb_not_ge (x y : float) : F32.ltb x y = true -> F32.leb y x = false.
Proof.
  unfold F32.leb, F32.ltb, SFleb, SFltb. rewrite (SFcompare_antisym x y).
  destruct (SFcompare x y) as [[]|]; cbn; congruence.
Qed.

Lemma ltb_not_gt (x y : float) : F32.ltb x y = true -> F32.ltb y x = false.
Proof.
  unfold F32.ltb, SFltb. rewrite (SFcompare_antisym x y).
  destruct (SFcompare x y) as [[]|]; cbn; congruence.
Qed.

Lemma le_21_not_gt_50 (s : float) :
  F32.leb s (F32.of_Z 21) = true -> F32.ltb (F32.of_Z 50) s = false.
Proof.
  unfold F32.leb, F32.ltb, SFleb, SFltb.
  change (F32.of_Z 21) with (S754_finite false 11010048 (-19)).
  change (F32.of_Z 50) with (S754_finite false 13107200 (-18)).
  destruct s as [sx|sx| |sx m e]; cbn [SFcompare]; try reflexivity.
  - destruct sx; [reflexivity|discriminate].
  - destruct sx; [reflexivity|].
    destruct (Z.compare_spec e (-19)); destruct (Z.compare_spec (-18) e);
      try lia; try reflexivity; discriminate.
Qed.

(** ** FilterLengthEstimator *)

(** C5 (amended): for [0 < b <= 0.5] and [slsl > 0],
    [estimate_req_filter_len] returns [2] when [slsl < 8] and, when
    [slsl >= 8], the quotient [(slsl - 8) / (14 b)] rounded by [lroundf]
    and converted to [unsigned int], with no lower bound on this branch. *)
Theorem estimate_req_filter_len_spec (b slsl : float) :
  F32.ltb F32.zero b = true -> F32.leb b F32.half = true ->
  F32.ltb F32.zero slsl = true ->
  (F32.leb (F32.of_Z 8) slsl = true ->
   estimate_req_filter_len b slsl
   = do r <- lroundf (F32.div (F32.sub slsl (F32.of_Z 8)) (F32.mul (F32.of_Z 14) b));
     Returned (to_uint r))
  /\ (F32.ltb slsl (F32.of_Z 8) = true -> estimate_req_filter_len b slsl = Returned 2).
Proof.
  intros Hb0 Hb1 Hs. unfold estimate_req_filter_len.
  rewrite (leb_not_gt _ _ Hb1), (ltb_not_ge _ _ Hb0), (ltb_not_ge _ _ Hs). cbn [orb].
  split; intros H8.
  - now rewrite (leb_not_gt _ _ H8).
  - now rewrite H8.
Qed.

Lemma estimate_req_filter_len_spec_witness :
  estimate_req_filter_len F32.half (F32.of_Z 20) = Returned 2
  /\ estimate_req_filter_len F32.half (F32.of_Z 5) = Returned 2.
Proof.
  split.
  - exact (proj1 (estimate_req_filter_len_spec F32.half (F32.of_Z 20)
                    eq_refl eq_refl eq_refl) eq_refl).
  - exact (proj2 (estimate_req_filter_len_spec F32.half (F32.of_Z 5)
                    eq_refl eq_refl eq_refl) eq_refl).
Defined.

(** When the rounded quotient is an [unsigned int], it is the result. *)
Corollary estimate_req_filter_len_rounds (b slsl : float) (z : Z) :
  F32.ltb F32.zero b = true -> F32.leb b F32.half = true ->
  F32.ltb F32.zero slsl = true -> F32.leb (F32.of_Z 8) slsl = true ->
  lroundf (F32.div (F32.sub slsl (F32.of_Z 8)) (F32.mul (F32.of_Z 14) b)) = Returned z ->
  in_uint z ->
  estimate_req_filter_len b slsl = Returned z.
Proof.
  intros Hb0 Hb1 Hs H8 Hr Hz. unfold estimate_req_filter_len.
  rewrite (leb_not_gt _ _ Hb1), (ltb_not_ge _ _ Hb0), (ltb_not_ge _ _ Hs). cbn [orb].
  rewrite (leb_not_gt _ _ H8), Hr. cbn [bind]. now rewrite to_uint_small.
Qed.

(** C5 as stated fails: the result is not clamped to [2].  With [b = 0.5]
    and [slsl = 8] the quotient is [0] and so is the tap count. *)
Lemma estimate_req_filter_len_below_two :
  F32.ltb F32.zero F32.half = true /\ F32.leb F32.half F32.half = true
  /\ F32.ltb F32.zero (F32.of_Z 8) = true /\ F32.leb (F32.of_Z 8) (F32.of_Z 8) = true
  /\ estimate_req_filter_len F32.half (F32.of_Z 8) = Returned 0
  /\ ~ 2 <= 0.
Proof. repeat split. lia. Qed.

(** C6 (amended): [estimate_req_filter_len(0.1, 60.0)] returns [37], the
    rounding of [(60 - 8) / (14 * 0.1) = 37.14]. *)
Theorem estimate_req_filter_len_example :
  estimate_req_filter_len (F32.of_float (F64.dec 1 1)) (F32.of_float (F64.of_Z 60))
  = Returned 37.
Proof. reflexivity. Qed.

(** C6 as stated fails: the call does not return [38]. *)
Lemma estimate_req_filter_len_example_not_38 :
  estimate_req_filter_len (F32.of_float (F64.dec 1 1)) (F32.of_float (F64.of_Z 60))
  <> Returned 38.
Proof. vm_compute. discriminate. Qed.

(** ** Writing the taps of a design *)

Lemma for_loop_write_never_exits (f : Z -> float) n :
  forall lo (h : list float), ~ InvalidParameter (for_loop n lo (fun i h => write h i (f i)) h).
Proof.
  induction n as [|n IH]; intros lo h [d Hd]; cbn [for_loop] in Hd; [discriminate|].
  unfold write in Hd at 1.
  destruct ((0 <=? lo) && (lo <? Z.of_nat (length h))); cbn [bind] in Hd; [|discriminate].
  exact (IH _ _ (ex_intro _ d Hd)).
Qed.

Lemma for_loop_write_spec (f : Z -> float) n :
  forall lo (h : list float),
    0 <= lo -> lo + Z.of_nat n <= Z.of_nat (length h) ->
    exists h' : list float,
      for_loop n lo (fun i h => write h i (f i)) h = Returned h'
      /\ length h' = length h
      /\ (forall i, lo <= i < lo + Z.of_nat n -> h' !! Z.to_nat i = Some (f i))
      /\ (forall j : nat, (Z.of_nat j < lo \/ lo + Z.of_nat n <= Z.of_nat j) ->
          h' !! j = h !! j).
Proof.
  induction n as [|n IH]; intros lo h Hlo Hlen.
  - exists h. cbn [for_loop]. split; [reflexivity|]. split; [reflexivity|].
    split; [intros i Hi; lia | reflexivity].
  - cbn [for_loop]. unfold write at 1.
    destruct (Z.leb_spec 0 lo); [|lia].
    destruct (Z.ltb_spec lo (Z.of_nat (length h))); [|lia].
    cbn [andb bind].
    destruct (IH (lo + 1) (<[Z.to_nat lo := f lo]> h)) as (h' & Hr & Hl & Hin & Hout);
      [lia | rewrite length_insert; lia |].
    exists h'. split; [exact Hr|]. split; [now rewrite Hl, length_insert|]. split.
    + intros i Hi. destruct (Z.eq_dec i lo) as [->|Hne].
      * rewrite Hout by lia. apply list_lookup_insert_eq. lia.
      * apply Hin. lia.
    + intros j Hj. rewrite Hout by lia. apply list_lookup_insert_ne. lia.
Qed.

(** ** KaiserBetaCalculator, KaiserWindowFIRDesigner, DopplerFIRDesigner *)

(** A validation that fails: the call exits, and the parameter is outside
    of its interval. *)
Ltac rejected := split; [split; [intros _; tauto | intros _; now eexists] | tauto].

Section DesignProperties.

Context {ext : Externals}.

(** C7: with [s = |slsl|], [kaiser_beta_slsl] returns
    [0.1102 (s - 8.7)] when [s > 50],
    [0.5842 (s - 21)^0.4 + 0.07886 (s - 21)] when [21 < s <= 50], and [0]
    when [s <= 21]; it is a total function. *)
Theorem kaiser_beta_slsl_spec (slsl : float) :
  (F32.ltb (F32.of_Z 50) (F32.abs slsl) = true ->
   kaiser_beta_slsl slsl
   = F32.mul (F32.dec 1102 4) (F32.sub (F32.abs slsl) (F32.dec 87 1)))
  /\ (F32.ltb (F32.of_Z 21) (F32.abs slsl) = true ->
      F32.leb (F32.abs slsl) (F32.of_Z 50) = true ->
      kaiser_beta_slsl slsl
      = F32.of_float
          (F64.add
             (F64.mul (F64.dec 5842 4)
                (F64.of_float
                   (powf (F32.sub (F32.abs slsl) (F32.of_Z 21)) (F32.dec 4 1))))
             (F64.of_float
                (F32.mul (F32.dec 7886 5) (F32.sub (F32.abs slsl) (F32.of_Z 21))))))
  /\ (F32.leb (F32.abs slsl) (F32.of_Z 21) = true -> kaiser_beta_slsl slsl = F32.zero).
Proof.
  unfold kaiser_beta_slsl. repeat split.
  - intros H. now rewrite H.
  - intros H21 H50. now rewrite (leb_not_gt _ _ H50), H21.
  - intros H21. rewrite (leb_not_gt _ _ H21).
    now rewrite (le_21_not_gt_50 _ H21).
Qed.

Lemma kaiser_beta_slsl_sign (slsl : float) :
  kaiser_beta_slsl (F32.opp slsl) = kaiser_beta_slsl slsl.
Proof.
  unfold kaiser_beta_slsl.
  replace (F32.abs (F32.opp slsl)) with (F32.abs slsl); [reflexivity|].
  now destruct slsl.
Qed.

(** C8: [fir_kaiser_window] fails with InvalidParameter exactly when
    [N = 0], or [fc] is outside [0, 1], or [mu] is outside [-0.5, 0.5];
    on every other input, and an output vector of at least [N] cells, it
    overwrites the first [N] cells, leaves every other cell as it was and
    keeps the length. *)
Theorem fir_kaiser_window_spec (n : Z) (fc slsl mu : float) (h : list float) :
  (InvalidParameter (fir_kaiser_window n fc slsl mu h)
   <-> n = 0 \/ outside F32.zero F32.one fc
       \/ outside (F32.opp F32.half) F32.half mu)
  /\ (~ (n = 0 \/ outside F32.zero F32.one fc
         \/ outside (F32.opp F32.half) F32.half mu) ->
      n <= Z.of_nat (length h) ->
      exists h' : list float,
        fir_kaiser_window n fc slsl mu h = Returned h'
        /\ length h' = length h
        /\ (forall i, 0 <= i < n ->
            h' !! Z.to_nat i
            = Some (F32.mul (sincf (F32.mul fc (F32.add (tap_time n i) mu)))
                            (kaiser i n (kaiser_beta_slsl slsl) mu)))
        /\ (forall j : nat, n <= Z.of_nat j -> h' !! j = h !! j)).
Proof.
  unfold fir_kaiser_window, outside.
  destruct (F32.ltb mu (F32.opp F32.half)) eqn:A; cbn [orb];
    [split; [split; [intros _; tauto | intros _; now eexists] | tauto]|].
  destruct (F32.ltb F32.half mu) eqn:B; cbn [orb];
    [split; [split; [intros _; tauto | intros _; now eexists] | tauto]|].
  destruct (F32.ltb fc F32.zero) eqn:C; cbn [orb];
    [split; [split; [intros _; tauto | intros _; now eexists] | tauto]|].
  destruct (F32.ltb F32.one fc) eqn:D; cbn [orb];
    [split; [split; [intros _; tauto | intros _; now eexists] | tauto]|].
  destruct (Z.eqb_spec n 0) as [E|E];
    [split; [split; [intros _; tauto | intros _; now eexists] | tauto]|].
  split.
  - split.
    + intros H. now apply for_loop_write_never_exits in H.
    + intros [?|[[?|?]|[?|?]]]; congruence.
  - intros _ Hn.
    destruct (for_loop_write_spec
                (kaiser_window_tap n fc (kaiser_beta_slsl slsl) mu) (Z.to_nat n) 0 h)
      as (h' & Hr & Hl & Hin & Hout); [lia | lia |].
    exists h'. split; [exact Hr|]. split; [exact Hl|]. split.
    + intros i Hi. apply Hin. lia.
    + intros j Hj. apply Hout. lia.
Qed.

(** The comparisons of the validation are all false on a NaN, which is
    therefore not rejected. *)
Lemma fir_kaiser_window_accepts_nan (n : Z) (slsl : float) (h : list float) :
  n <> 0 -> ~ InvalidParameter (fir_kaiser_window n F32.nan slsl F32.nan h).
Proof.
  intros Hn. unfold fir_kaiser_window. cbn [F32.ltb SFltb SFcompare F32.nan orb].
  change (F32.ltb F32.half F32.nan) with false.
  change (F32.ltb F32.one F32.nan) with false. cbn [orb].
  destruct (Z.eqb_spec n 0); [contradiction|].
  apply for_loop_write_never_exits.
Qed.

(** C9: [fir_design_doppler] validates nothing and, for a tap count [N]
    (an [unsigned int]) and an output vector of at least [N] cells, returns
    after writing for each tap [i], with [t = i - (N-1)/2] and
    [x = 2 pi fd t], the coefficient
    [(1.5 J0(|x|) + 1.5 K/(K+1) cos(x cos(theta))) * kaiser(i, N, 4, 0)]. *)
Theorem fir_design_doppler_spec (n : Z) (fd K theta : float) (h : list float) :
  ~ InvalidParameter (fir_design_doppler n fd K theta h)
  /\ (in_uint n -> n <= Z.of_nat (length h) ->
      exists h' : list float,
        fir_design_doppler n fd K theta h = Returned h'
        /\ length h' = length h
        /\ (forall i, 0 <= i < n ->
            let t := F32.sub (F32.of_Z i) (F32.div (F32.of_Z (n - 1)) (F32.of_Z 2)) in
            let x := F64.mul (F64.mul (F64.mul (F64.of_Z 2) F64.M_PI) (F64.of_float fd))
                       (F64.of_float t) in
            h' !! Z.to_nat i
            = Some
                (F32.mul
                   (F32.add
                      (F32.of_float
                         (F64.mul (F64.dec 15 1)
                            (F64.of_float (besselj_0 (F32.abs (F32.of_float x))))))
                      (F32.of_float
                         (F64.mul
                            (F64.div (F64.mul (F64.dec 15 1) (F64.of_float K))
                               (F64.of_float (F32.add K (F32.of_Z 1))))
                            (F64.of_float
                               (cosf
                                  (F32.of_float
                                     (F64.mul x (F64.of_float (cosf theta)))))))))
                   (kaiser i n (F32.of_Z 4) (F32.of_Z 0))))
        /\ (forall j : nat, n <= Z.of_nat j -> h' !! j = h !! j)).
Proof.
  unfold fir_design_doppler. split; [apply for_loop_write_never_exits|].
  intros Hu Hn.
  destruct (for_loop_write_spec (doppler_tap n fd K theta) (Z.to_nat n) 0 h)
    as (h' & Hr & Hl & Hin & Hout); [lia | lia |].
  exists h'. split; [exact Hr|]. split; [exact Hl|]. split.
  + intros i Hi. cbv zeta. rewrite Hin by lia.
    unfold doppler_tap, two_pi_fd_t, tap_time.
    rewrite (to_uint_small (n - 1)) by range. reflexivity.
  + intros j Hj. apply Hout. lia.
Qed.

End DesignProperties.

Lemma kaiser_beta_slsl_spec_witness :
  @kaiser_beta_slsl sample_externals (F32.of_Z (-60))
  = F32.mul (F32.dec 1102 4) (F32.sub (F32.of_Z 60) (F32.dec 87 1))
  /\ @kaiser_beta_slsl sample_externals (F32.of_Z 40)
     = F32.of_float
         (F64.add
            (F64.mul (F64.dec 5842 4) (F64.of_float (F32.of_Z 19)))
            (F64.of_float (F32.mul (F32.dec 7886 5) (F32.of_Z 19))))
  /\ @kaiser_beta_slsl sample_externals (F32.of_Z 21) = F32.zero.
Proof.
  split; [|split].
  - exact (proj1 (@kaiser_beta_slsl_spec sample_externals (F32.of_Z (-60))) eq_refl).
  - exact (proj1 (proj2 (@kaiser_beta_slsl_spec sample_externals (F32.of_Z 40)))
             eq_refl eq_refl).
  - exact (proj2 (proj2 (@kaiser_beta_slsl_spec sample_externals (F32.of_Z 21))) eq_refl).
Defined.

Lemma fir_kaiser_window_spec_witness :
  InvalidParameter
    (@fir_kaiser_window sample_externals 0 F32.half (F32.of_Z 40) F32.zero [F32.one])
  /\ exists h' : list float,
      @fir_kaiser_window sample_externals 2 F32.half (F32.of_Z 40) F32.zero
        [F32.one; F32.one; F32.one] = Returned h'
      /\ length h' = 3%nat.
Proof.
  split.
  - apply (proj1 (@fir_kaiser_window_spec sample_externals 0 F32.half (F32.of_Z 40)
                    F32.zero [F32.one])).
    left. reflexivity.
  - destruct (proj2 (@fir_kaiser_window_spec sample_externals 2 F32.half (F32.of_Z 40)
                       F32.zero [F32.one; F32.one; F32.one]))
      as (h' & Hr & Hl & _).
    + unfold outside. intros [H|[[H|H]|[H|H]]]; discriminate H.
    + simpl. lia.
    + exists h'. split; [exact Hr | exact Hl].
Defined.

(** With [fd = 0.1], [K = 2], [theta = 1] and two taps, [x] is
    [-0.31415927] and [0.31415927], and the coefficients are
    [4 (1.5 |x| + x)]: [0.6283185] and [3.1415927]; the third cell is not
    written. *)
Lemma fir_design_doppler_spec_witness :
  exists h' : list float,
    @fir_design_doppler tracing_externals 2 (F32.dec 1 1) (F32.of_Z 2) F32.one
      [F32.zero; F32.zero; F32.one] = Returned h'
    /\ h' !! 0%nat = Some (S754_finite false 10541436 (-24))
    /\ h' !! 1%nat = Some (S754_finite false 13176795 (-22))
    /\ h' !! 2%nat = Some F32.one.
Proof.
  destruct (proj2 (@fir_design_doppler_spec tracing_externals 2 (F32.dec 1 1) (F32.of_Z 2)
                     F32.one [F32.zero; F32.zero; F32.one]))
    as (h' & Hr & _ & Hin & Hout).
  - range.
  - simpl. lia.
  - exists h'. split; [exact Hr|]. split; [|split].
    + assert (H0 : 0 <= 0 < 2) by lia. apply Hin in H0. vm_compute in H0. exact H0.
    + assert (H1 : 0 <= 1 < 2) by lia. apply Hin in H1. vm_compute in H1. exact H1.
    + rewrite (Hout 2%nat); [reflexivity | lia].
Defined.

(** * Further properties of the code

    Properties that the claims above leave out: the cells a call reads or
    writes, what it does on an array that is too short, the sign of its
    results, and what its validations report. *)

(** ** Loops that stop early, and loops that keep an invariant *)
Lemma for_loop_ext {S : Type} (body body' : Z -> S -> outcome S) n :
  forall lo s,
    (forall j t, lo <= j < lo + Z.of_nat n -> body j t = body' j t) ->
    for_loop n lo body s = for_loop n lo body' s.
Proof.
  induction n as [|n IH]; intros lo s Hb; [reflexivity|].
  cbn [for_loop]. rewrite Hb by lia. destruct (body' lo s); cbn [bind]; try reflexivity.
  apply IH. intros j t Hj. apply Hb. lia.
Qed.

(** A loop whose body succeeds below [j], keeping [I], and reads or writes
    out of bounds at [j]. *)
Lemma for_loop_stops {S : Type} (I : S -> Prop) (body : Z -> S -> outcome S) n :
  forall lo j s,
    lo <= j < lo + Z.of_nat n ->
    (forall i t, lo <= i < j -> I t -> exists t', body i t = Returned t' /\ I t') ->
    (forall t, I t -> body j t = OutOfBounds) ->
    I s ->
    for_loop n lo body s = OutOfBounds.
Proof.
  induction n as [|n IH]; intros lo j s Hj Hok Hbad Hs; [lia|].
  cbn [for_loop]. destruct (Z.eq_dec lo j) as [->|Hne].
  - now rewrite Hbad.
  - destruct (Hok lo s) as (t' & -> & Ht'); [lia|assumption|]. cbn [bind].
    apply (IH (lo + 1) j); [lia | | assumption | assumption].
    intros i t Hi. apply Hok. lia.
Qed.

Lemma read_out_of_bounds (h : list float) i :
  Z.of_nat (length h) <= i -> read h i = OutOfBounds.
Proof.
  intros H. unfold read. destruct (Z.ltb_spec i 0); [reflexivity|].
  rewrite lookup_ge_None_2 by lia. reflexivity.
Qed.

(** ** The cells that [liquid_filter_autocorr] reads *)
Lemma fold_range_ext {S : Type} (g g' : Z -> S -> S) n :
  forall lo s,
    (forall j t, lo <= j < lo + Z.of_nat n -> g j t = g' j t) ->
    fold_range n lo g s = fold_range n lo g' s.
Proof.
  induction n as [|n IH]; intros lo s Hg; [reflexivity|].
  cbn [fold_range]. rewrite Hg by lia. apply IH. intros j t Hj. apply Hg. lia.
Qed.

Lemma sum_range_ext (f f' : Z -> float) (lo hi : Z) :
  (forall i, lo <= i <= hi -> f i = f' i) -> sum_range f lo hi = sum_range f' lo hi.
Proof.
  intros Hf. unfold sum_range. apply fold_range_ext.
  intros j t Hj. rewrite Hf by lia. reflexivity.
Qed.

Lemma get_app_l (h t : list float) i :
  0 <= i < Z.of_nat (length h) -> get (h ++ t) i = get h i.
Proof. intros Hi. unfold get. rewrite lookup_app_l by lia. reflexivity. Qed.

Lemma autocorr_spec_app (h t : list float) (L lag : Z) :
  L <= Z.of_nat (length h) ->
  autocorr_spec (h ++ t) L lag = autocorr_spec h L lag.
Proof.
  intros HL. unfold autocorr_spec. destruct (Z.abs lag <? L); [|reflexivity].
  apply sum_range_ext. intros i Hi.
  rewrite !get_app_l by lia. reflexivity.
Qed.

Lemma autocorr_app (h t : list float) (L lag : Z) :
  in_uint L -> L <= Z.of_nat (length h) ->
  liquid_filter_autocorr (h ++ t) L lag = liquid_filter_autocorr h L lag.
Proof.
  intros HL Hlen. destruct (CInt.abs lag) as [a|] eqn:E.
  - apply abs_Some in E. destruct E as [_ Hlag].
    rewrite !autocorr_within; try assumption.
    + now rewrite autocorr_spec_app.
    + rewrite length_app. lia.
  - unfold liquid_filter_autocorr. now rewrite E.
Qed.

Lemma autocorr_overrun (h : list float) (L lag : Z) :
  in_uint L -> - 2^31 < lag < 2^31 -> Z.abs lag < L -> Z.of_nat (length h) < L ->
  liquid_filter_autocorr h L lag = OutOfBounds.
Proof.
  intros HL Hlag Hlt Hlen. unfold liquid_filter_autocorr.
  rewrite abs_defined by assumption.
  rewrite (to_uint_small (Z.abs lag)) by range.
  destruct (Z.geb_spec (Z.abs lag) L); [lia|].
  apply (for_loop_stops (fun _ => True) _ _ _ (Z.max (Z.abs lag) (Z.of_nat (length h))));
    [lia | | | exact I].
  - intros i t Hi _. unfold in_uint in HL.
    rewrite (to_uint_small (i - Z.abs lag)) by range.
    rewrite !read_in_bounds by lia. cbn [bind]. eauto.
  - intros t _. rewrite read_out_of_bounds by lia. reflexivity.
Qed.

(** X1: only the first [_h_len] cells of the array decide the outcome:
    cells appended after them change nothing; and when the array holds at
    least [_h_len] cells the call returns for every lag but [INT_MIN]. *)
Theorem liquid_filter_autocorr_extent (h t : list float) (L lag : Z) :
  in_uint L -> in_int lag -> L <= Z.of_nat (length h) ->
  liquid_filter_autocorr (h ++ t) L lag = liquid_filter_autocorr h L lag
  /\ (lag <> - 2^31 -> exists r, liquid_filter_autocorr h L lag = Returned r).
Proof.
  intros HL Hlag Hlen. split; [now apply autocorr_app|].
  intros Hmin. rewrite autocorr_within by (try assumption; range). eauto.
Qed.

Lemma liquid_filter_autocorr_extent_witness :
  liquid_filter_autocorr ([F32.one; F32.half] ++ [F32.one]) 2 1
  = liquid_filter_autocorr [F32.one; F32.half] 2 1
  /\ exists r, liquid_filter_autocorr [F32.one; F32.half] 2 1 = Returned r.
Proof.
  destruct (liquid_filter_autocorr_extent [F32.one; F32.half] [F32.one] 2 1) as [H1 H2];
    [range | range | simpl; lia |].
  split; [exact H1|]. apply H2. lia.
Defined.

(** X2: for a lag other than [INT_MIN], a lag of at least [_h_len] returns
    [0] without reading the array, whatever the array, and a smaller lag
    with a [_h_len] beyond the end of the array reads out of bounds; at
    [INT_MIN] the call is undefined. *)
Theorem liquid_filter_autocorr_overrun (h : list float) (L lag : Z) :
  in_uint L -> in_int lag ->
  (lag = - 2^31 -> liquid_filter_autocorr h L lag = Undefined)
  /\ (lag <> - 2^31 -> L <= Z.abs lag ->
      liquid_filter_autocorr h L lag = Returned F32.zero)
  /\ (lag <> - 2^31 -> Z.abs lag < L -> Z.of_nat (length h) < L ->
      liquid_filter_autocorr h L lag = OutOfBounds).
Proof.
  intros HL Hlag. split; [|split].
  - intros ->. apply autocorr_undefined.
  - intros Hmin H. unfold liquid_filter_autocorr.
    rewrite abs_defined by range. rewrite (to_uint_small (Z.abs lag)) by range.
    destruct (Z.geb_spec (Z.abs lag) L); [reflexivity|lia].
  - intros Hmin. apply autocorr_overrun; [assumption|range].
Qed.

Lemma liquid_filter_autocorr_overrun_witness :
  liquid_filter_autocorr [] 3 (-3) = Returned F32.zero
  /\ liquid_filter_autocorr [F32.one; F32.one] 3 (-2) = OutOfBounds.
Proof.
  split.
  - destruct (liquid_filter_autocorr_overrun [] 3 (-3)) as (_ & H & _); [range | range |].
    apply H; [lia | simpl; lia].
  - destruct (liquid_filter_autocorr_overrun [F32.one; F32.one] 3 (-2)) as (_ & _ & H);
      [range | range |].
    apply H; [lia | simpl; lia | simpl; lia].
Defined.

(** ** Negating the coefficients *)
Lemma mul_opp_opp (x y : float) : F32.mul (F32.opp x) (F32.opp y) = F32.mul x y.
Proof.
  destruct x as [sx|sx| |sx mx ex], y as [sy|sy| |sy my ey]; cbn;
    rewrite ?xorb_negb_negb; reflexivity.
Qed.

Lemma read_opp (h : list float) i :
  read (F32.opp <$> h) i
  = match read h i with Returned x => Returned (F32.opp x) | o => o end.
Proof.
  unfold read. destruct (i <? 0); [reflexivity|].
  rewrite list_lookup_fmap. destruct (h !! Z.to_nat i); reflexivity.
Qed.

Lemma autocorr_opp (h : list float) (L lag : Z) :
  liquid_filter_autocorr (F32.opp <$> h) L lag = liquid_filter_autocorr h L lag.
Proof.
  unfold liquid_filter_autocorr. destruct (CInt.abs lag) as [a|]; [|reflexivity].
  destruct (to_uint a >=? L); [reflexivity|].
  apply for_loop_ext. intros j t _. rewrite !read_opp.
  destruct (read h j) as [x| | | |]; cbn [bind]; try reflexivity.
  destruct (read h (to_uint (j - a))) as [y| | | |]; cbn [bind]; try reflexivity.
  now rewrite mul_opp_opp.
Qed.

(** X3: the call on the negated coefficients has the outcome of the call
    on the coefficients, whatever the arguments, also when the lag is
    negated with them: the same failure, or the same value of [float] (all
    NaNs being one value here, the sign and payload of a NaN result are
    left out). *)
Theorem liquid_filter_autocorr_polarity (h : list float) (L lag : Z) :
  liquid_filter_autocorr (F32.opp <$> h) L lag = liquid_filter_autocorr h L lag
  /\ liquid_filter_autocorr (F32.opp <$> h) L (- lag) = liquid_filter_autocorr h L lag.
Proof.
  split; rewrite autocorr_opp; [reflexivity|].
  unfold liquid_filter_autocorr. now rewrite abs_opp.
Qed.

(** X4: negating every coefficient changes neither output of the ISI
    analysis, nor whether it fails. *)
Theorem liquid_filter_isi_polarity (h : list float) (k m : Z) :
  liquid_filter_isi (F32.opp <$> h) k m = liquid_filter_isi h k m.
Proof.
  unfold liquid_filter_isi. rewrite autocorr_opp.
  destruct (liquid_filter_autocorr h _ 0) as [rxx0| | | |]; cbn [bind]; try reflexivity.
  f_equal. apply for_loop_ext. intros j [a b] _. unfold isi_body.
  now rewrite autocorr_opp.
Qed.

(** ** The sign of an energy *)
Lemma binary_round_aux_abs prec emax m e l :
  F32.abs (binary_round_aux prec emax false m e l) = binary_round_aux prec emax false m e l.
Proof.
  unfold binary_round_aux.
  destruct (shr_fexp prec emax m e l) as [r1 e1].
  destruct (shr_fexp prec emax _ e1 loc_Exact) as [r2 e2].
  destruct (shr_m r2); [reflexivity | | reflexivity].
  destruct (e2 <=? emax - prec); reflexivity.
Qed.

Lemma binary_round_abs prec emax m e :
  F32.abs (binary_round prec emax false m e) = binary_round prec emax false m e.
Proof.
  unfold binary_round. destruct (shl_align _ _ _) as [mz ez]. apply binary_round_aux_abs.
Qed.

Lemma of_Z_abs z : 0 <= z -> F32.abs (F32.of_Z z) = F32.of_Z z.
Proof.
  intros Hz. destruct z as [|p|p]; [reflexivity | apply binary_round_abs | lia].
Qed.

Lemma mul_self_abs (x : float) : F32.abs (F32.mul x x) = F32.mul x x.
Proof.
  destruct x as [s|s| |s m e]; cbn; rewrite ?xorb_nilpotent; try reflexivity.
  apply binary_round_aux_abs.
Qed.

Lemma add_abs (x y : float) :
  F32.abs x = x -> F32.abs y = y -> F32.abs (F32.add x y) = F32.add x y.
Proof.
  destruct x as [sx|sx| |sx mx ex], y as [sy|sy| |sy my ey]; cbn;
    intros Hx Hy; try reflexivity; try assumption;
    try (injection Hx as <-); try (injection Hy as <-); try reflexivity.
  unfold F32.add, SFadd. cbn [cond_Zopp].
  unfold binary_normalize.
  destruct (Zpos (fst (shl_align mx ex (Z.min ex ey)))
            + Zpos (fst (shl_align my ey (Z.min ex ey)))) eqn:E; try lia.
  apply binary_round_abs.
Qed.

Lemma div_abs (x y : float) :
  F32.abs x = x -> F32.abs y = y -> F32.abs (F32.div x y) = F32.div x y.
Proof.
  destruct x as [sx|sx| |sx mx ex], y as [sy|sy| |sy my ey]; cbn;
    intros Hx Hy; try reflexivity;
    try (injection Hx as <-); try (injection Hy as <-); try reflexivity.
  unfold F32.div, SFdiv. cbn [xorb].
  destruct (SFdiv_core_binary _ _ _ _ _ _) as [[mz ez] lz].
  apply binary_round_aux_abs.
Qed.

Lemma abs_abs (x : float) : F32.abs (F32.abs x) = F32.abs x.
Proof. now destruct x. Qed.

Lemma for_loop_invariant {S : Type} (P : S -> Prop) (body : Z -> S -> outcome S) n :
  forall lo s s',
    P s ->
    (forall i t t', lo <= i < lo + Z.of_nat n -> P t -> body i t = Returned t' -> P t') ->
    for_loop n lo body s = Returned s' -> P s'.
Proof.
  induction n as [|n IH]; intros lo s s' Hs Hb Hr; cbn [for_loop] in Hr.
  - now injection Hr as <-.
  - destruct (body lo s) as [t| | | |] eqn:E; cbn [bind] in Hr; try discriminate.
    apply (IH (lo + 1) t s'); [| |exact Hr].
    + apply (Hb lo s t); [lia|assumption|assumption].
    + intros i u u' Hi. apply Hb. lia.
Qed.

Lemma abs_not_negative (x : float) : F32.abs x = x -> F32.ltb x F32.zero = false.
Proof.
  destruct x as [s|s| |s m e]; cbn; intros H; try reflexivity;
    injection H as <-; reflexivity.
Qed.

Lemma read_Returned (h : list float) i x : read h i = Returned x -> x = get h i.
Proof.
  unfold read, get. destruct (i <? 0); [discriminate|].
  destruct (h !! Z.to_nat i); [|discriminate]. now intros [= ->].
Qed.

Lemma autocorr_zero_lag_abs (h : list float) (L : Z) (r : float) :
  in_uint L -> liquid_filter_autocorr h L 0 = Returned r -> F32.abs r = r.
Proof.
  intros HL. unfold liquid_filter_autocorr.
  change (CInt.abs 0) with (Some 0). cbv iota. change (to_uint 0) with 0.
  destruct (0 >=? L); [intros H; injection H as <-; reflexivity|].
  apply (for_loop_invariant (fun s => F32.abs s = s)); [reflexivity|].
  intros i t t' Hi Ht. replace (i - 0) with i by lia.
  rewrite (to_uint_small i) by range.
  destruct (read h i) as [x| | | |]; cbn [bind]; try discriminate.
  intros [= <-]. apply add_abs; [assumption|apply mul_self_abs].
Qed.

(** X5: the zero-lag autocorrelation, the reference of the ISI analysis, is
    never negative: its sign bit is clear or it is a NaN. *)
Theorem liquid_filter_autocorr_energy (h : list float) (L : Z) (r : float) :
  in_uint L -> liquid_filter_autocorr h L 0 = Returned r ->
  F32.abs r = r /\ F32.ltb r F32.zero = false.
Proof.
  intros HL Hr. pose proof (autocorr_zero_lag_abs h L r HL Hr) as H.
  split; [exact H | now apply abs_not_negative].
Qed.

Lemma liquid_filter_autocorr_energy_witness :
  F32.abs (F32.of_Z 5) = F32.of_Z 5 /\ F32.ltb (F32.of_Z 5) F32.zero = false.
Proof.
  apply (liquid_filter_autocorr_energy [F32.of_Z (-1); F32.of_Z 2] 2 (F32.of_Z 5));
    [range | reflexivity].
Defined.

(** X6: whenever the ISI analysis returns, neither output is negative: each
    has its sign bit clear or is a NaN. *)
Theorem liquid_filter_isi_not_negative (h : list float) (k m : Z) (mse mx : float) :
  liquid_filter_isi h k m = Returned (mse, mx) ->
  (F32.abs mse = mse /\ F32.ltb mse F32.zero = false)
  /\ (F32.abs mx = mx /\ F32.ltb mx F32.zero = false).
Proof.
  unfold liquid_filter_isi.
  destruct (liquid_filter_autocorr h _ 0) as [rxx0| | | |]; cbn [bind]; try discriminate.
  destruct (for_loop _ _ _ _) as [[a b]| | | |] eqn:E; cbn [bind]; try discriminate.
  intros [= <- <-].
  assert (H : F32.abs a = a /\ F32.abs b = b).
  { revert E.
    apply (for_loop_invariant (fun s => F32.abs (fst s) = fst s /\ F32.abs (snd s) = snd s));
      [split; reflexivity|].
    intros i [a0 b0] t' _ [Ha Hb]. cbn [fst snd] in Ha, Hb. unfold isi_body.
    destruct (liquid_filter_autocorr h _ _) as [r| | | |]; cbn [bind]; try discriminate.
    intros [= <-]. cbn [fst snd]. split.
    - apply add_abs; [assumption|apply mul_self_abs].
    - destruct ((i =? 1) || F32.ltb b0 (F32.abs (F32.div r rxx0))); [apply abs_abs|assumption]. }
  destruct H as [Ha Hb].
  assert (Hm : F32.abs (F32.div a (isi_divisor m)) = F32.div a (isi_divisor m)).
  { apply div_abs; [assumption|]. unfold isi_divisor. apply of_Z_abs.
    unfold to_uint. apply Z.mod_pos_bound. lia. }
  repeat split; try assumption; now apply abs_not_negative.
Qed.

Lemma liquid_filter_isi_not_negative_witness :
  (F32.abs F32.nan = F32.nan /\ F32.ltb F32.nan F32.zero = false)
  /\ (F32.abs F32.zero = F32.zero /\ F32.ltb F32.zero F32.zero = false).
Proof.
  apply (liquid_filter_isi_not_negative [F32.one] 3 0 F32.nan F32.zero). reflexivity.
Defined.

(** ** The cells that [liquid_filter_isi] reads *)
Lemma to_uint_parity z : to_uint z mod 2 = z mod 2.
Proof.
  unfold to_uint. change (2^32) with 4294967296.
  Z.div_mod_to_equations. lia.
Qed.

Lemma isi_length_odd k m : isi_length k m mod 2 = 1.
Proof.
  unfold isi_length. rewrite to_uint_parity, Z.add_mod by lia.
  rewrite to_uint_parity, Z.mul_mod by lia.
  rewrite to_uint_parity. replace (2 * k) with (k * 2) by lia.
  rewrite Z.mod_mul by lia. reflexivity.
Qed.

Lemma isi_length_range k m : 1 <= isi_length k m < 2^32.
Proof.
  pose proof (isi_length_odd k m) as Ho.
  assert (Hr : in_uint (isi_length k m)) by apply to_uint_range.
  unfold in_uint in Hr.
  destruct (Z.eq_dec (isi_length k m) 0) as [E|E]; [rewrite E in Ho; discriminate|lia].
Qed.

Lemma isi_within (h : list float) (k m : Z) :
  isi_length k m <= Z.of_nat (length h) -> isi_lags_defined k m ->
  liquid_filter_isi h k m
  = let rxx0 := autocorr_spec h (isi_length k m) 0 in
    let s := fold_range (isi_iterations m) 1
               (isi_step (fun i =>
                  F32.abs (F32.div (autocorr_spec h (isi_length k m)
                                      (to_int (to_uint (i * k)))) rxx0)))
               (F32.zero, F32.zero) in
    Returned (F32.div (fst s) (isi_divisor m), snd s).
Proof.
  intros Hlen Hdef. pose proof (isi_length_range k m) as HL.
  unfold liquid_filter_isi. fold (isi_length k m).
  rewrite autocorr_within by (try assumption; range). cbn [bind].
  set (rxx0 := autocorr_spec h (isi_length k m) 0).
  rewrite (for_loop_pure
             (isi_step (fun i => F32.abs (F32.div
                  (autocorr_spec h (isi_length k m) (to_int (to_uint (i * k)))) rxx0)))).
  - cbn [bind]. cbv zeta. destruct (fold_range _ _ _ _) as [a b]. reflexivity.
  - intros j [a b] Hj. unfold isi_body. unfold isi_iterations in Hj.
    pose proof (to_uint_range (2 * m)) as Hn. unfold in_uint in Hn.
    rewrite Z2Nat.id in Hj by lia.
    pose proof (to_int_range (to_uint (j * k))) as Hr. unfold in_int in Hr.
    assert (Hne : isi_lag k j <> - 2^31) by (apply Hdef; lia). unfold isi_lag in Hne.
    rewrite autocorr_within by (try assumption; range).
    reflexivity.
Qed.

(** Within the range of [int] no lag is [INT_MIN]. *)
Lemma isi_lags_defined_small (k m : Z) :
  0 <= k -> 0 <= m < 2^31 -> 2 * k * m < 2^31 -> isi_lags_defined k m.
Proof.
  intros Hk Hm Hkm i Hi. rewrite (to_uint_small (2 * m)) in Hi by range.
  assert (Hik : 0 <= i * k < 2^31) by nia.
  unfold isi_lag. destruct (lag_of_uint (i * k) Hik) as [H _]. lia.
Qed.

Lemma isi_app (h t : list float) (k m : Z) :
  isi_length k m <= Z.of_nat (length h) ->
  liquid_filter_isi (h ++ t) k m = liquid_filter_isi h k m.
Proof.
  intros Hlen. pose proof (isi_length_range k m) as HL.
  unfold liquid_filter_isi. fold (isi_length k m).
  rewrite autocorr_app by (try assumption; range).
  destruct (liquid_filter_autocorr h _ 0) as [rxx0| | | |]; cbn [bind]; try reflexivity.
  f_equal. apply for_loop_ext. intros j [a b] _. unfold isi_body.
  now rewrite autocorr_app by (try assumption; range).
Qed.

(** X7: with [h_len] the [unsigned int] value of [2*_k*_m+1] that the code
    computes, cells appended after the first [h_len] change nothing; on an
    array of at least [h_len] cells the call returns when no lag [i*_k] is
    [INT_MIN] as an [int] and is undefined when one is; and a shorter array
    is read out of bounds. *)
Theorem liquid_filter_isi_extent (h : list float) (k m : Z) :
  (isi_length k m <= Z.of_nat (length h) ->
   (isi_lags_defined k m -> exists r, liquid_filter_isi h k m = Returned r)
   /\ (forall j, 1 <= j <= to_uint (2 * m) -> isi_lag k j = - 2^31 ->
       liquid_filter_isi h k m = Undefined)
   /\ forall t, liquid_filter_isi (h ++ t) k m = liquid_filter_isi h k m)
  /\ (Z.of_nat (length h) < isi_length k m -> liquid_filter_isi h k m = OutOfBounds).
Proof.
  pose proof (isi_length_range k m) as HL. split; intros Hlen.
  - split; [intros Hdef; rewrite isi_within by assumption; cbv zeta; eauto|].
    split; [intros j; now apply isi_undefined|].
    intros t. now apply isi_app.
  - unfold liquid_filter_isi. fold (isi_length k m).
    rewrite autocorr_overrun by (try assumption; try range; cbn; lia). reflexivity.
Qed.

Lemma liquid_filter_isi_extent_witness :
  (exists r, liquid_filter_isi [F32.one; F32.zero; F32.half] (2^31 + 1) 1 = Returned r)
  /\ liquid_filter_isi [F32.one] (2^31) 1 = Undefined
  /\ liquid_filter_isi [F32.one; F32.zero] (2^31 + 1) 1 = OutOfBounds.
Proof.
  split; [|split].
  - destruct (liquid_filter_isi_extent [F32.one; F32.zero; F32.half] (2^31 + 1) 1)
      as [H _].
    destruct H as (H & _ & _); [vm_compute; discriminate|].
    apply H. intros i Hi. change (to_uint (2 * 1)) with 2 in Hi.
    assert (E : i = 1 \/ i = 2) by lia.
    destruct E as [-> | ->]; vm_compute; discriminate.
  - destruct (liquid_filter_isi_extent [F32.one] (2^31) 1) as [H _].
    destruct H as (_ & H & _); [vm_compute; discriminate|].
    apply (H 1); [change (to_uint (2 * 1)) with 2; lia | reflexivity].
  - destruct (liquid_filter_isi_extent [F32.one; F32.zero] (2^31 + 1) 1) as [_ H].
    apply H. reflexivity.
Defined.

(** ** Filters without inter-symbol interference *)
Lemma of_Z_pos_nonzero z : 0 < z -> nonzero (F32.of_Z z).
Proof.
  intros Hz. destruct z as [|p|p]; try lia.
  apply (binary_round_nonzero F32.prec F32.emax eq_refl).
  unfold emin, F32.prec, F32.emax. lia.
Qed.

Lemma div_zero_positive (y : float) :
  nonzero y -> F32.abs y = y -> F32.div F32.zero y = F32.zero.
Proof.
  destruct y as [s|s| |s m e]; cbn; intros Hn Ha; try contradiction;
    injection Ha as <-; reflexivity.
Qed.

Lemma isi_term_zero (r r0 : float) :
  (exists s, r = S754_zero s) -> nonzero r0 -> F32.abs (F32.div r r0) = F32.zero.
Proof. intros [s ->] Hn. destruct r0; try contradiction; reflexivity. Qed.

Lemma max_range_const_on (f : Z -> float) (c : float) (lo hi : Z) :
  lo <= hi -> (forall i, lo <= i <= hi -> f i = c) -> max_range f lo hi = c.
Proof.
  intros Hle Hf. unfold max_range. rewrite Hf by lia.
  rewrite (fold_range_ext _ (fun (i : Z) acc => fmax acc ((fun _ => c) i))).
  - apply (max_range_const (fun _ => c) c lo hi). reflexivity.
  - intros j t Hj. rewrite Hf by lia. reflexivity.
Qed.

Lemma isi_zero_isi_spec (h : list float) (k m : Z) :
  0 <= k -> 1 <= m < 2^31 -> 2 * k * m < 2^31 ->
  Z.of_nat (length h) = 2 * k * m + 1 ->
  nonzero (autocorr_spec h (2 * k * m + 1) 0) ->
  (forall i, 1 <= i <= 2 * m -> exists s, autocorr_spec h (2 * k * m + 1) (i * k) = S754_zero s) ->
  liquid_filter_isi h k m = Returned (F32.zero, F32.zero).
Proof.
  intros Hk Hm Hkm Hlen Hr0 Hz. rewrite isi_returns_spec by assumption.
  assert (He : forall i, 1 <= i <= 2 * m -> isi_e h k m i = F32.zero).
  { intros i Hi. unfold isi_e. apply isi_term_zero; [now apply Hz | assumption]. }
  f_equal. f_equal.
  - unfold isi_mse_spec. rewrite sum_range_zero_on.
    + apply div_zero_positive; [apply of_Z_pos_nonzero; lia | apply of_Z_abs; lia].
    + intros i Hi. now rewrite He.
  - unfold isi_max_spec. apply max_range_const_on; [lia|assumption].
Qed.

(** X8: within the 32-bit range, when the autocorrelation is a zero at
    every symbol-spaced lag [i k], [i = 1 .. 2m], and its zero-lag value is
    neither a zero nor a NaN, both outputs are exactly [+0]. *)
Theorem liquid_filter_isi_zero_isi (h : list float) (k m : Z) (r0 : float) :
  0 <= k -> 1 <= m < 2^31 -> 2 * k * m < 2^31 ->
  Z.of_nat (length h) = 2 * k * m + 1 ->
  liquid_filter_autocorr h (2 * k * m + 1) 0 = Returned r0 -> nonzero r0 ->
  (forall i, 1 <= i <= 2 * m ->
     exists s, liquid_filter_autocorr h (2 * k * m + 1) (i * k) = Returned (S754_zero s)) ->
  liquid_filter_isi h k m = Returned (F32.zero, F32.zero).
Proof.
  intros Hk Hm Hkm Hlen Hr0 Hn Hz.
  assert (HL : in_uint (2 * k * m + 1)) by range.
  rewrite autocorr_returns in Hr0 by (try range; lia). injection Hr0 as <-.
  apply isi_zero_isi_spec; try assumption; try lia.
  intros i Hi. destruct (Hz i Hi) as [s Hs].
  assert (0 <= i * k <= 2 * k * m) by nia.
  rewrite autocorr_returns in Hs by (try range; lia). injection Hs as ->. eauto.
Qed.

Lemma unit_pulse_length n c x : 0 <= n -> Z.of_nat (length (unit_pulse n c x)) = n.
Proof. intros Hn. unfold unit_pulse. rewrite length_insert, length_replicate. lia. Qed.

Lemma unit_pulse_get n c x i :
  0 <= c < n -> 0 <= i ->
  get (unit_pulse n c x) i = if i =? c then x else F32.zero.
Proof.
  intros Hc Hi. unfold get, unit_pulse.
  destruct (Z.eqb_spec i c) as [->|Hne].
  - rewrite list_lookup_insert_eq by (rewrite length_replicate; lia). reflexivity.
  - rewrite list_lookup_insert_ne by lia.
    destruct (replicate _ F32.zero !! _) as [y|] eqn:E; [|reflexivity].
    apply lookup_replicate in E. now destruct E as [-> _].
Qed.

Lemma fold_add_any_zeros (f : Z -> float) n :
  forall lo,
    (forall i, lo <= i < lo + Z.of_nat n -> exists s, f i = S754_zero s) ->
    fold_range n lo (fun i a => F32.add a (f i)) F32.zero = F32.zero.
Proof.
  induction n as [|n IH]; intros lo Hf; [reflexivity|].
  cbn [fold_range]. destruct (Hf lo) as [s ->]; [lia|].
  replace (F32.add F32.zero (S754_zero s)) with F32.zero by (now destruct s).
  apply IH. intros i Hi. apply Hf. lia.
Qed.

Lemma sum_range_single (f : Z -> float) (lo hi c : Z) (y : float) :
  lo <= c <= hi -> f c = y ->
  (forall i, lo <= i <= hi -> i <> c -> f i = F32.zero) ->
  F32.add F32.zero y = y -> F32.add y F32.zero = y ->
  sum_range f lo hi = y.
Proof.
  intros Hc Hfc Hz H0y Hy0. unfold sum_range.
  replace (Z.to_nat (hi - lo + 1))
    with (Z.to_nat (c - lo) + (1 + Z.to_nat (hi - c)))%nat by lia.
  rewrite fold_range_app, fold_range_app.
  rewrite (fold_add_zeros f (Z.to_nat (c - lo)) lo F32.zero);
    [| intros i Hi; apply Hz; lia | reflexivity].
  replace (lo + Z.of_nat (Z.to_nat (c - lo))) with c by lia.
  cbn [fold_range]. rewrite Hfc, H0y.
  apply fold_add_zeros; [|assumption].
  intros i Hi. apply Hz; lia.
Qed.

Lemma nonzero_add_zero (y : float) :
  nonzero y -> F32.add F32.zero y = y /\ F32.add y F32.zero = y.
Proof. destruct y; cbn; intros H; try contradiction; split; reflexivity. Qed.

Lemma unit_pulse_r0 n c x :
  0 <= c < n -> nonzero (F32.mul x x) ->
  autocorr_spec (unit_pulse n c x) n 0 = F32.mul x x.
Proof.
  intros Hc Hx. unfold autocorr_spec. change (Z.abs 0) with 0.
  destruct (Z.ltb_spec 0 n); [|lia].
  destruct (nonzero_add_zero _ Hx) as [H0y Hy0].
  apply (sum_range_single _ _ _ c); try assumption; [lia | |].
  - replace (c - 0) with c by lia. rewrite unit_pulse_get by lia.
    now rewrite Z.eqb_refl.
  - intros i Hi Hne. replace (i - 0) with i by lia. rewrite unit_pulse_get by lia.
    destruct (Z.eqb_spec i c); [contradiction|reflexivity].
Qed.

Lemma unit_pulse_r_lag n c (x : float) lag :
  0 <= c < n -> 0 < lag ->
  (exists s m e, x = S754_finite s m e) ->
  exists s, autocorr_spec (unit_pulse n c x) n lag = S754_zero s.
Proof.
  intros Hc Hlag (sx & mx & ex & ->). exists false.
  unfold autocorr_spec. rewrite Z.abs_eq by lia.
  destruct (lag <? n); [|reflexivity].
  unfold sum_range. apply fold_add_any_zeros.
  intros i Hi. rewrite !unit_pulse_get by lia.
  destruct (Z.eqb_spec i c) as [->|_].
  - destruct (Z.eqb_spec (c - lag) c); [lia|]. cbn. eauto.
  - destruct (i - lag =? c); cbn; eauto.
Qed.

Lemma liquid_filter_isi_zero_isi_witness :
  liquid_filter_isi [F32.zero; F32.zero; F32.one; F32.zero; F32.zero] 2 1
  = Returned (F32.zero, F32.zero).
Proof.
  apply (liquid_filter_isi_zero_isi
           [F32.zero; F32.zero; F32.one; F32.zero; F32.zero] 2 1 F32.one);
    [lia | lia | lia | reflexivity | reflexivity | exact I |].
  intros i Hi. exists false.
  assert (E : i = 1 \/ i = 2) by lia. destruct E as [-> | ->]; reflexivity.
Defined.

(** X9: for [k >= 1], [m >= 1] and [2 k m < 2^31], a filter with a single
    nonzero coefficient [x], finite and with [x*x] not underflowing to
    zero, wherever it sits among the [2 k m + 1] coefficients, has no
    inter-symbol interference: both outputs are [+0]. *)
Theorem liquid_filter_isi_unit_pulse (k m c : Z) (x : float) :
  1 <= k -> 1 <= m -> 2 * k * m < 2^31 -> 0 <= c <= 2 * k * m ->
  (exists s mx ex, x = S754_finite s mx ex) -> nonzero (F32.mul x x) ->
  liquid_filter_isi (unit_pulse (2 * k * m + 1) c x) k m = Returned (F32.zero, F32.zero).
Proof.
  intros Hk Hm Hkm Hc Hfin Hx.
  assert (Hm' : m < 2^31) by nia.
  apply isi_zero_isi_spec; try lia.
  - apply unit_pulse_length. lia.
  - rewrite unit_pulse_r0 by (try assumption; lia). assumption.
  - intros i Hi. apply unit_pulse_r_lag; [lia | nia | assumption].
Qed.

Lemma liquid_filter_isi_unit_pulse_witness :
  liquid_filter_isi (unit_pulse (2 * 2 * 1 + 1) 4 F32.half) 2 1
  = Returned (F32.zero, F32.zero).
Proof.
  apply (liquid_filter_isi_unit_pulse 2 1 4 F32.half); [lia | lia | lia | lia | | exact I].
  exists false, 8388608%positive, (-24). reflexivity.
Defined.

(** ** The cells that the design functions write *)
Lemma for_loop_write_overrun (f : Z -> float) n (lo : Z) (h : list float) :
  0 <= lo -> (0 < n)%nat -> Z.of_nat (length h) < lo + Z.of_nat n ->
  for_loop n lo (fun i h => write h i (f i)) h = OutOfBounds.
Proof.
  intros Hlo Hn Hlen.
  apply (for_loop_stops (fun t : list float => length t = length h) _ _ _
           (Z.max lo (Z.of_nat (length h)))); [lia | | | reflexivity].
  - intros i t Hi Ht. unfold write.
    destruct (Z.leb_spec 0 i); [|lia].
    destruct (Z.ltb_spec i (Z.of_nat (length t))); [|lia]. cbn [andb].
    eexists. split; [reflexivity|]. now rewrite length_insert.
  - intros t Ht. unfold write.
    destruct (Z.ltb_spec (Z.max lo (Z.of_nat (length h))) (Z.of_nat (length t))); [lia|].
    now rewrite andb_false_r.
Qed.

Lemma for_loop_write_independent (f : Z -> float) n (h1 h2 : list float) :
  length h1 = length h2 ->
  (forall j : nat, (n <= j)%nat -> h1 !! j = h2 !! j) ->
  for_loop n 0 (fun i h => write h i (f i)) h1
  = for_loop n 0 (fun i h => write h i (f i)) h2.
Proof.
  intros Hlen Hrest. destruct (le_lt_dec n (length h1)) as [Hle|Hlt].
  - destruct (for_loop_write_spec f n 0 h1) as (h1' & -> & Hl1 & Hin1 & Hout1); [lia|lia|].
    destruct (for_loop_write_spec f n 0 h2) as (h2' & -> & Hl2 & Hin2 & Hout2); [lia|lia|].
    f_equal. apply list_eq. intros i.
    destruct (le_lt_dec n i) as [Hi|Hi].
    + rewrite Hout1, Hout2 by lia. now apply Hrest.
    + specialize (Hin1 (Z.of_nat i)). specialize (Hin2 (Z.of_nat i)).
      rewrite Nat2Z.id in Hin1, Hin2. rewrite Hin1, Hin2 by lia. reflexivity.
  - rewrite !for_loop_write_overrun by lia. reflexivity.
Qed.

Lemma for_loop_write_idempotent (f : Z -> float) n (h h' : list float) :
  for_loop n 0 (fun i h => write h i (f i)) h = Returned h' ->
  for_loop n 0 (fun i h => write h i (f i)) h' = Returned h'.
Proof.
  intros Hr. destruct (le_lt_dec n (length h)) as [Hle|Hlt].
  - destruct (for_loop_write_spec f n 0 h) as (h1 & E1 & Hl1 & Hin1 & Hout1); [lia|lia|].
    rewrite E1 in Hr. injection Hr as <-.
    destruct (for_loop_write_spec f n 0 h1) as (h2 & -> & Hl2 & Hin2 & Hout2); [lia|lia|].
    f_equal. apply list_eq. intros i.
    destruct (le_lt_dec n i) as [Hi|Hi].
    + apply Hout2. lia.
    + specialize (Hin1 (Z.of_nat i)). specialize (Hin2 (Z.of_nat i)).
      rewrite Nat2Z.id in Hin1, Hin2. rewrite Hin1, Hin2 by lia. reflexivity.
  - rewrite for_loop_write_overrun in Hr by lia. discriminate.
Qed.

Section MoreDesign.

Context {ext : Externals}.

(** X10: with accepted parameters and an output array of fewer than [N]
    cells, [fir_kaiser_window] writes past the end of the array. *)
Theorem fir_kaiser_window_overrun (n : Z) (fc slsl mu : float) (h : list float) :
  ~ outside F32.zero F32.one fc -> ~ outside (F32.opp F32.half) F32.half mu ->
  Z.of_nat (length h) < n ->
  fir_kaiser_window n fc slsl mu h = OutOfBounds.
Proof.
  unfold outside, fir_kaiser_window. intros Hfc Hmu Hlen.
  destruct (F32.ltb mu (F32.opp F32.half)); [tauto|].
  destruct (F32.ltb F32.half mu); [tauto|].
  destruct (F32.ltb fc F32.zero); [tauto|].
  destruct (F32.ltb F32.one fc); [tauto|]. cbn [orb].
  destruct (Z.eqb_spec n 0); [lia|].
  apply for_loop_write_overrun; lia.
Qed.

(** X11: [fir_design_doppler] on an output array of fewer than [N] cells
    writes past the end of the array, whatever the other parameters. *)
Theorem fir_design_doppler_overrun (n : Z) (fd K theta : float) (h : list float) :
  Z.of_nat (length h) < n ->
  fir_design_doppler n fd K theta h = OutOfBounds.
Proof. intros Hlen. apply for_loop_write_overrun; lia. Qed.

(** X12: the outcome of [fir_kaiser_window] depends on the output array
    only through its length and its cells from [N] on, and designing again
    into the designed array changes nothing. *)
Theorem fir_kaiser_window_overwrites (n : Z) (fc slsl mu : float) (h1 h2 : list float) :
  (length h1 = length h2 ->
   (forall j : nat, n <= Z.of_nat j -> h1 !! j = h2 !! j) ->
   fir_kaiser_window n fc slsl mu h1 = fir_kaiser_window n fc slsl mu h2)
  /\ (fir_kaiser_window n fc slsl mu h1 = Returned h2 ->
      fir_kaiser_window n fc slsl mu h2 = Returned h2).
Proof.
  unfold fir_kaiser_window.
  destruct (F32.ltb mu (F32.opp F32.half) || F32.ltb F32.half mu);
    [split; [reflexivity|discriminate]|].
  destruct (F32.ltb fc F32.zero || F32.ltb F32.one fc);
    [split; [reflexivity|discriminate]|].
  destruct (n =? 0); [split; [reflexivity|discriminate]|].
  split.
  - intros Hlen Hrest. apply for_loop_write_independent; [assumption|].
    intros j Hj. apply Hrest. lia.
  - apply for_loop_write_idempotent.
Qed.

(** X13: the outcome of [fir_design_doppler] depends on the output array
    only through its length and its cells from [N] on, and designing again
    into the designed array changes nothing. *)
Theorem fir_design_doppler_overwrites (n : Z) (fd K theta : float) (h1 h2 : list float) :
  (length h1 = length h2 ->
   (forall j : nat, n <= Z.of_nat j -> h1 !! j = h2 !! j) ->
   fir_design_doppler n fd K theta h1 = fir_design_doppler n fd K theta h2)
  /\ (fir_design_doppler n fd K theta h1 = Returned h2 ->
      fir_design_doppler n fd K theta h2 = Returned h2).
Proof.
  unfold fir_design_doppler. split.
  - intros Hlen Hrest. apply for_loop_write_independent; [assumption|].
    intros j Hj. apply Hrest. lia.
  - apply for_loop_write_idempotent.
Qed.

Lemma kaiser_beta_slsl_low (slsl : float) :
  F32.leb (F32.abs slsl) (F32.of_Z 21) = true -> kaiser_beta_slsl slsl = F32.zero.
Proof.
  intros H. unfold kaiser_beta_slsl.
  now rewrite (le_21_not_gt_50 _ H), (leb_not_gt _ _ H).
Qed.

(** X14: [fir_kaiser_window] sees the sidelobe level through
    [kaiser_beta_slsl] only: the sign of [slsl] is immaterial, and all the
    levels with [|slsl| <= 21] design the same filter. *)
Theorem fir_kaiser_window_slsl (n : Z) (fc s1 s2 mu : float) (h : list float) :
  fir_kaiser_window n fc (F32.opp s1) mu h = fir_kaiser_window n fc s1 mu h
  /\ (F32.leb (F32.abs s1) (F32.of_Z 21) = true ->
      F32.leb (F32.abs s2) (F32.of_Z 21) = true ->
      fir_kaiser_window n fc s1 mu h = fir_kaiser_window n fc s2 mu h).
Proof.
  unfold fir_kaiser_window. split.
  - now rewrite kaiser_beta_slsl_sign.
  - intros H1 H2. now rewrite (kaiser_beta_slsl_low s1 H1), (kaiser_beta_slsl_low s2 H2).
Qed.

(** X15: the validations of [fir_kaiser_window] are tried in the order
    [mu], [fc], [N], and the first that fails decides the diagnostic: the
    cutoff is reported only for an accepted [mu], and the zero length only
    for an accepted [mu] and [fc]. *)
Theorem fir_kaiser_window_diagnostic (n : Z) (fc slsl mu : float) (h : list float) :
  (fir_kaiser_window n fc slsl mu h = Exited mu_out_of_range
   <-> outside (F32.opp F32.half) F32.half mu)
  /\ (fir_kaiser_window n fc slsl mu h = Exited cutoff_out_of_range
      <-> ~ outside (F32.opp F32.half) F32.half mu /\ outside F32.zero F32.one fc)
  /\ (fir_kaiser_window n fc slsl mu h = Exited zero_filter_length
      <-> ~ outside (F32.opp F32.half) F32.half mu /\ ~ outside F32.zero F32.one fc
          /\ n = 0).
Proof.
  unfold fir_kaiser_window, outside.
  destruct (F32.ltb mu (F32.opp F32.half)) eqn:A; cbn [orb];
    [repeat split; try tauto; try discriminate; intuition discriminate|].
  destruct (F32.ltb F32.half mu) eqn:B; cbn [orb];
    [repeat split; try tauto; try discriminate; intuition discriminate|].
  destruct (F32.ltb fc F32.zero) eqn:C; cbn [orb];
    [repeat split; try tauto; try discriminate; intuition discriminate|].
  destruct (F32.ltb F32.one fc) eqn:D; cbn [orb];
    [repeat split; try tauto; try discriminate; intuition discriminate|].
  destruct (Z.eqb_spec n 0) as [E|E];
    [repeat split; try tauto; try discriminate; intuition discriminate|].
  assert (Hne : forall d, for_loop (Z.to_nat n) 0
             (fun i h => write h i (kaiser_window_tap n fc (kaiser_beta_slsl slsl) mu i)) h
             <> Exited d).
  { intros d Hd. eapply for_loop_write_never_exits. exists d. exact Hd. }
  split; [|split]; (split; [intros H; now apply Hne in H|]).
  - intros [?|?]; discriminate.
  - intros [_ [?|?]]; discriminate.
  - intros (_ & _ & ?). contradiction.
Qed.

End MoreDesign.

Lemma lroundf_never_exits (x : float) (d : diagnostic) : lroundf x <> Exited d.
Proof.
  destruct x as [s|s| |s m e]; cbn; try discriminate.
  destruct ((- 2^63 <=? round_half_away s m e) && (round_half_away s m e <? 2^63));
    discriminate.
Qed.

(** X16: [estimate_req_filter_len] reports the bandwidth exactly when
    [b > 0.5] or [b <= 0], whatever [slsl], and the sidelobe level exactly
    when the bandwidth is accepted and [slsl <= 0]; a NaN bandwidth is
    accepted, and returns [2] with [0 < slsl < 8]. *)
Theorem estimate_req_filter_len_diagnostic (b slsl : float) :
  (estimate_req_filter_len b slsl = Exited invalid_bandwidth
   <-> F32.ltb F32.half b = true \/ F32.leb b F32.zero = true)
  /\ (estimate_req_filter_len b slsl = Exited invalid_sidelobe_level
      <-> (F32.ltb F32.half b = false /\ F32.leb b F32.zero = false)
          /\ F32.leb slsl F32.zero = true)
  /\ (F32.ltb F32.zero slsl = true -> F32.ltb slsl (F32.of_Z 8) = true ->
      estimate_req_filter_len F32.nan slsl = Returned 2).
Proof.
  unfold estimate_req_filter_len. split; [|split].
  - destruct (F32.ltb F32.half b), (F32.leb b F32.zero); cbn [orb];
      try (split; [intros _; tauto | reflexivity]).
    split; [|intros [?|?]; discriminate].
    destruct (F32.leb slsl F32.zero); [intros H; discriminate H|].
    destruct (F32.ltb slsl (F32.of_Z 8)); [intros H; discriminate H|].
    destruct (lroundf _) eqn:E; cbn [bind]; intros H; try discriminate H.
    now apply lroundf_never_exits in E.
  - destruct (F32.ltb F32.half b), (F32.leb b F32.zero); cbn [orb];
      try (split; [intros H; discriminate H | intros [[? ?] _]; discriminate]).
    destruct (F32.leb slsl F32.zero); [split; [intros _; tauto | reflexivity]|].
    split; [|intros [_ ?]; discriminate].
    destruct (F32.ltb slsl (F32.of_Z 8)); [intros H; discriminate H|].
    destruct (lroundf _) eqn:E; cbn [bind]; intros H; try discriminate H.
    now apply lroundf_never_exits in E.
  - intros H0 H8. change (F32.ltb F32.half F32.nan) with false.
    change (F32.leb F32.nan F32.zero) with false. cbn [orb].
    now rewrite (ltb_not_ge _ _ H0), H8.
Qed.

Lemma estimate_req_filter_len_diagnostic_witness :
  estimate_req_filter_len F32.nan (F32.of_Z 5) = Returned 2.
Proof.
  apply (proj2 (proj2 (estimate_req_filter_len_diagnostic F32.nan (F32.of_Z 5))));
    reflexivity.
Defined.

Lemma fir_kaiser_window_overrun_witness :
  @fir_kaiser_window sample_externals 3 F32.half (F32.of_Z 40) F32.zero [F32.one; F32.one]
  = OutOfBounds.
Proof.
  apply (@fir_kaiser_window_overrun sample_externals 3 F32.half (F32.of_Z 40) F32.zero
           [F32.one; F32.one]).
  - unfold outside. intros [H|H]; discriminate H.
  - unfold outside. intros [H|H]; discriminate H.
  - simpl. lia.
Defined.

Lemma fir_design_doppler_overrun_witness :
  @fir_design_doppler sample_externals 1 (F32.dec 1 1) (F32.of_Z 2) F32.zero []
  = OutOfBounds.
Proof.
  apply (@fir_design_doppler_overrun sample_externals 1 (F32.dec 1 1) (F32.of_Z 2)
           F32.zero []).
  simpl. lia.
Defined.

Lemma fir_kaiser_window_overwrites_witness :
  @fir_kaiser_window sample_externals 2 F32.half (F32.of_Z 40) F32.zero
    [F32.one; F32.one; F32.half]
  = @fir_kaiser_window sample_externals 2 F32.half (F32.of_Z 40) F32.zero
      [F32.zero; F32.nan; F32.half].
Proof.
  apply (proj1 (@fir_kaiser_window_overwrites sample_externals 2 F32.half (F32.of_Z 40)
                  F32.zero [F32.one; F32.one; F32.half] [F32.zero; F32.nan; F32.half])).
  - reflexivity.
  - intros [|[|j]] Hj; [lia | lia | reflexivity].
Defined.

Lemma fir_design_doppler_overwrites_witness :
  @fir_design_doppler sample_externals 2 (F32.dec 1 1) (F32.of_Z 2) F32.zero
    [F32.one; F32.one; F32.half]
  = @fir_design_doppler sample_externals 2 (F32.dec 1 1) (F32.of_Z 2) F32.zero
      [F32.zero; F32.nan; F32.half].
Proof.
  apply (proj1 (@fir_design_doppler_overwrites sample_externals 2 (F32.dec 1 1)
                  (F32.of_Z 2) F32.zero
                  [F32.one; F32.one; F32.half] [F32.zero; F32.nan; F32.half])).
  - reflexivity.
  - intros [|[|j]] Hj; [lia | lia | reflexivity].
Defined.

Lemma fir_kaiser_window_slsl_witness :
  @fir_kaiser_window sample_externals 2 F32.half (F32.of_Z 3) F32.zero [F32.one; F32.one]
  = @fir_kaiser_window sample_externals 2 F32.half (F32.of_Z (-20)) F32.zero
      [F32.one; F32.one].
Proof.
  apply (proj2 (@fir_kaiser_window_slsl sample_externals 2 F32.half (F32.of_Z 3)
                  (F32.of_Z (-20)) F32.zero [F32.one; F32.one])); reflexivity.
Defined.

(** ** The quotient of [estimate_req_filter_len]

    [slsl - 8] is not negative for [slsl >= 8], and [14 b] is finite and
    positive for [0 < b <= 0.5]: their quotient is a zero, a positive value
    or [+infinity]. *)

Section RoundingRange.

Variables prec emax : Z.
Hypothesis prec_pos : 0 < prec.

Lemma Zdigits2_upper z j : 0 <= j -> 0 <= z <= 2 ^ j -> Zdigits2 z <= j + 1.
Proof.
  intros Hj Hz. destruct z as [|p|p]; cbn [Zdigits2]; try lia.
  pose proof (digits2_lower p) as Hl.
  assert (Zpos (digits2_pos p) - 1 <= j); [|lia].
  apply (Z.pow_le_mono_r_iff 2); lia.
Qed.

Lemma round_nearest_even_range m l :
  0 <= m -> m <= round_nearest_even m l <= m + 1.
Proof.
  intros Hm. unfold round_nearest_even. destruct l as [|[]]; try lia.
  destruct (Z.even m); lia.
Qed.

(** With a mantissa that is not negative the result is a zero, a finite
    value or an infinity of the sign asked for. *)
Lemma binary_round_aux_not_nan s m e l :
  0 <= m -> binary_round_aux prec emax s m e l <> S754_nan.
Proof.
  intros Hm. unfold binary_round_aux, shr_fexp.
  assert (H0 : shr_m (shr_record_of_loc m l) = m) by (destruct l as [|[]]; reflexivity).
  destruct (shr_spec (shr_record_of_loc m l) e (fexp prec emax (Zdigits2 m + e) - e))
    as [E1 _]; [rewrite H0; lia|].
  destruct (shr (shr_record_of_loc m l) e _) as [r1 e1]. cbn [fst] in E1.
  assert (H1 : 0 <= shr_m r1) by (rewrite E1, H0; apply Z.div_pos; lia).
  pose proof (round_nearest_even_range (shr_m r1) (loc_of_shr_record r1) H1) as H2.
  set (m2 := round_nearest_even (shr_m r1) (loc_of_shr_record r1)) in *.
  destruct (shr_spec (shr_record_of_loc m2 loc_Exact) e1
              (fexp prec emax (Zdigits2 m2 + e1) - e1)) as [E3 _]; [cbn; lia|].
  destruct (shr (shr_record_of_loc m2 loc_Exact) e1 _) as [r3 e3]. cbn [fst] in E3.
  cbn [shr_record_of_loc shr_m] in E3.
  assert (H3 : 0 <= shr_m r3) by (rewrite E3; apply Z.div_pos; lia).
  destruct (shr_m r3); [discriminate | | lia].
  destruct (e3 <=? emax - prec); discriminate.
Qed.

(** A value below [2^emax] does not round to an infinity. *)
Lemma binary_round_aux_finite s m e l :
  emin prec emax <= emax - prec -> e <= emax - prec ->
  Zpos (digits2_pos m) + e < emax ->
  forall s', binary_round_aux prec emax s (Zpos m) e l <> S754_infinity s'.
Proof.
  intros Hfmt He Hd s'. unfold binary_round_aux, shr_fexp. cbn [Zdigits2].
  set (d := Zpos (digits2_pos m)) in *.
  set (n1 := fexp prec emax (d + e) - e).
  assert (H0 : shr_m (shr_record_of_loc (Zpos m) l) = Zpos m)
    by (destruct l as [|[]]; reflexivity).
  destruct (shr_spec (shr_record_of_loc (Zpos m) l) e n1) as [E1 E1']; [rewrite H0; lia|].
  destruct (shr (shr_record_of_loc (Zpos m) l) e n1) as [r1 e1]. cbn [fst snd] in E1, E1'.
  rewrite H0 in E1.
  assert (H1 : 0 <= shr_m r1) by (rewrite E1; apply Z.div_pos; lia).
  pose proof (round_nearest_even_range (shr_m r1) (loc_of_shr_record r1) H1) as H2.
  set (m2 := round_nearest_even (shr_m r1) (loc_of_shr_record r1)) in *.
  assert (He1 : e1 <= emax - prec) by (unfold n1, fexp in *; lia).
  assert (Hd2 : Zdigits2 m2 + e1 <= emax).
  { destruct (Z.le_gt_cases (Z.max n1 0) d) as [Hk|Hk].
    - assert (Hm1 : shr_m r1 < 2 ^ (d - Z.max n1 0)).
      { rewrite E1. apply Z.div_lt_upper_bound; [lia|].
        rewrite <- Z.pow_add_r by lia.
        replace (Z.max n1 0 + (d - Z.max n1 0)) with d by lia. apply digits2_upper. }
      pose proof (Zdigits2_upper m2 (d - Z.max n1 0)). lia.
    - assert (Hm1 : shr_m r1 = 0).
      { rewrite E1. apply Z.div_small. split; [lia|].
        pose proof (digits2_upper m). fold d in H.
        assert (2 ^ d < 2 ^ Z.max n1 0) by (apply Z.pow_lt_mono_r; lia). lia. }
      pose proof (Zdigits2_upper m2 0). cbn in H. lia. }
  destruct (shr_spec (shr_record_of_loc m2 loc_Exact) e1
              (fexp prec emax (Zdigits2 m2 + e1) - e1)) as [_ E3]; [cbn; lia|].
  destruct (shr (shr_record_of_loc m2 loc_Exact) e1 _) as [r3 e3]. cbn [snd] in E3.
  destruct (shr_m r3); try discriminate.
  destruct (Z.leb_spec e3 (emax - prec)); [discriminate|].
  unfold fexp in *. lia.
Qed.

End RoundingRange.

(** The mantissa of a rounded value has at most [prec] digits. *)
Lemma binary_round_aux_mantissa prec emax s m e l s' m' e' :
  0 < prec -> 0 <= m ->
  binary_round_aux prec emax s m e l = S754_finite s' m' e' ->
  Zpos m' < 2 ^ prec.
Proof.
  intros Hp Hm. unfold binary_round_aux, shr_fexp.
  assert (H0 : shr_m (shr_record_of_loc m l) = m) by (destruct l as [|[]]; reflexivity).
  destruct (shr_spec (shr_record_of_loc m l) e (fexp prec emax (Zdigits2 m + e) - e))
    as [E1 _]; [rewrite H0; lia|].
  destruct (shr (shr_record_of_loc m l) e _) as [r1 e1]. cbn [fst] in E1.
  assert (H1 : 0 <= shr_m r1) by (rewrite E1, H0; apply Z.div_pos; lia).
  pose proof (round_nearest_even_range (shr_m r1) (loc_of_shr_record r1) H1) as H2.
  set (m2 := round_nearest_even (shr_m r1) (loc_of_shr_record r1)) in *.
  set (n3 := fexp prec emax (Zdigits2 m2 + e1) - e1).
  destruct (shr_spec (shr_record_of_loc m2 loc_Exact) e1 n3) as [E3 _]; [cbn; lia|].
  destruct (shr (shr_record_of_loc m2 loc_Exact) e1 n3) as [r3 e3]. cbn [fst] in E3.
  cbn [shr_record_of_loc shr_m] in E3.
  destruct (shr_m r3) as [|p|p] eqn:Er; try discriminate.
  destruct (e3 <=? emax - prec); try discriminate.
  intros [= _ <- _]. rewrite E3.
  assert (Hpow : 0 < 2 ^ Z.max n3 0) by (apply Z.pow_pos_nonneg; lia).
  destruct m2 as [|q|q] eqn:Em2; [rewrite Z.div_0_l in E3 by lia; lia | | lia].
  pose proof (digits2_upper q) as Hu. cbn [Zdigits2] in n3.
  set (d := Zpos (digits2_pos q)) in *.
  destruct (Z.le_gt_cases d prec) as [Hd|Hd].
  - assert (Zpos q / 2 ^ Z.max n3 0 <= Zpos q).
    { apply Z.div_le_upper_bound; [lia|]. nia. }
    assert (2 ^ d <= 2 ^ prec) by (apply Z.pow_le_mono_r; lia). lia.
  - assert (Hn : d - prec <= Z.max n3 0) by (unfold n3, fexp; lia).
    apply Z.div_lt_upper_bound; [lia|].
    assert (2 ^ d <= 2 ^ Z.max n3 0 * 2 ^ prec).
    { rewrite <- Z.pow_add_r by lia. apply Z.pow_le_mono_r; lia. }
    lia.
Qed.

(** The mantissa of a valid [float] has at most 24 digits, exactly 24 above
    the least exponent, and its exponent is at least [emin]. *)
Lemma valid_float_finite s m e :
  valid_float (S754_finite s m e) ->
  -149 <= e <= 104 /\ Zpos (digits2_pos m) <= 24
  /\ (-149 < e -> Zpos (digits2_pos m) = 24).
Proof.
  unfold valid_float, valid_binary, bounded, canonical_mantissa, fexp, emin,
    F32.prec, F32.emax.
  intros H. apply andb_prop in H. destruct H as [H1 H2].
  apply Z.eqb_eq in H1. apply Z.leb_le in H2. lia.
Qed.

Lemma shl_align_value m e ez :
  ez <= e -> Zpos (fst (shl_align m e ez)) = Zpos m * 2 ^ (e - ez).
Proof.
  intros H. unfold shl_align. destruct (ez - e) as [|p|p] eqn:E; try lia.
  - replace (e - ez) with 0 by lia. cbn [fst]. lia.
  - cbn [fst]. change (Pos.iter xO m p) with (shift_pos p m).
    rewrite shift_pos_correct, Z.pow_pos_fold.
    replace (e - ez) with (Zpos p) by lia. lia.
Qed.

(** [slsl - 8] for [slsl >= 8]. *)
Lemma sub_8_class (slsl : float) :
  valid_float slsl -> F32.leb (F32.of_Z 8) slsl = true ->
  F32.sub slsl (F32.of_Z 8) <> F32.nan
  /\ F32.abs (F32.sub slsl (F32.of_Z 8)) = F32.sub slsl (F32.of_Z 8)
  /\ F32.leb slsl F32.zero = false.
Proof.
  intros Hv H8. change (F32.of_Z 8) with (S754_finite false 8388608 (-20)) in *.
  unfold F32.leb, SFleb in *.
  destruct slsl as [s|s| |s m e]; cbn [SFcompare] in H8; try discriminate.
  - destruct s; [discriminate|]. repeat split; discriminate.
  - destruct s; [discriminate|].
    destruct (valid_float_finite _ _ _ Hv) as (He & Hd & Hn).
    assert (Hrel : -20 < e \/ (e = -20 /\ 8388608 <= Zpos m)).
    { destruct (Z.compare_spec (-20) e); [right|left; lia|discriminate].
      split; [lia|]. subst e.
      change (Pos.compare_cont Eq 8388608 m) with (Pos.compare 8388608 m) in H8.
      destruct (Pos.compare_spec 8388608 m); try discriminate; lia. }
    assert (Hm : 2 ^ 23 <= Zpos m).
    { destruct Hrel as [Hlt|[_ ?]]; [|lia].
      pose proof (digits2_lower m) as Hl. rewrite Hn in Hl by lia. exact Hl. }
    split; [|split; [|reflexivity]].
    + unfold F32.sub, SFsub. cbn [cond_Zopp].
      rewrite Z.min_r by lia. rewrite !shl_align_value by lia.
      replace (-20 - -20) with 0 by lia. rewrite Z.pow_0_r, Z.mul_1_r.
      assert (Hdiff : 0 <= Zpos m * 2 ^ (e - -20) - 8388608).
      { assert (1 <= 2 ^ (e - -20)) by (apply (Z.pow_le_mono_r 2 0); lia). nia. }
      unfold binary_normalize.
      destruct (Zpos m * 2 ^ (e - -20) - 8388608) as [|p|p]; [discriminate| |lia].
      intros E.
      pose proof (binary_round_nonzero F32.prec F32.emax eq_refl false p (-20)) as Hnz.
      rewrite E in Hnz. apply Hnz. unfold emin, F32.prec, F32.emax. lia.
    + unfold F32.sub, SFsub. cbn [cond_Zopp].
      rewrite Z.min_r by lia. rewrite !shl_align_value by lia.
      replace (-20 - -20) with 0 by lia. rewrite Z.pow_0_r, Z.mul_1_r.
      assert (Hdiff : 0 <= Zpos m * 2 ^ (e - -20) - 8388608).
      { assert (1 <= 2 ^ (e - -20)) by (apply (Z.pow_le_mono_r 2 0); lia). nia. }
      unfold binary_normalize.
      destruct (Zpos m * 2 ^ (e - -20) - 8388608) as [|p|p]; [reflexivity| |lia].
      apply binary_round_abs.
Qed.

Lemma digits2_mul_bounds (a b : positive) :
  Zpos (digits2_pos a) + Zpos (digits2_pos b) - 1 <= Zpos (digits2_pos (a * b))
  /\ Zpos (digits2_pos (a * b)) <= Zpos (digits2_pos a) + Zpos (digits2_pos b).
Proof.
  pose proof (digits2_lower a) as La. pose proof (digits2_upper a) as Ua.
  pose proof (digits2_lower b) as Lb. pose proof (digits2_upper b) as Ub.
  pose proof (digits2_lower (a * b)) as Lp. pose proof (digits2_upper (a * b)) as Up.
  rewrite Pos2Z.inj_mul in Lp, Up.
  set (da := Zpos (digits2_pos a)) in *. set (db := Zpos (digits2_pos b)) in *.
  set (dp := Zpos (digits2_pos (a * b))) in *.
  assert (H0a : 0 < 2 ^ (da - 1)) by (apply Z.pow_pos_nonneg; lia).
  assert (H0b : 0 < 2 ^ (db - 1)) by (apply Z.pow_pos_nonneg; lia).
  split.
  - assert (2 ^ (da - 1 + (db - 1)) < 2 ^ dp).
    { rewrite Z.pow_add_r by lia. nia. }
    assert (da - 1 + (db - 1) < dp) by (apply (Z.pow_lt_mono_r_iff 2); lia). lia.
  - assert (2 ^ (dp - 1) < 2 ^ (da + db)).
    { rewrite Z.pow_add_r by lia. nia. }
    assert (dp - 1 < da + db) by (apply (Z.pow_lt_mono_r_iff 2); lia). lia.
Qed.

(** [14 * b] for [0 < b <= 0.5]: a finite positive value. *)
Lemma mul_14_class (b : float) :
  valid_float b -> F32.ltb F32.zero b = true -> F32.leb b F32.half = true ->
  exists m e, F32.mul (F32.of_Z 14) b = S754_finite false m e.
Proof.
  intros Hv H0 H5. change (F32.of_Z 14) with (S754_finite false 14680064 (-20)).
  unfold F32.ltb, SFltb, F32.leb, SFleb, F32.half in *.
  destruct b as [s|s| |s m e]; cbn [SFcompare] in H0, H5; try discriminate.
  - destruct s; discriminate.
  - destruct s; [discriminate|].
    destruct (valid_float_finite _ _ _ Hv) as (He & Hd & _).
    assert (He5 : e <= -24).
    { destruct (Z.compare_spec e (-24)); [lia|lia|discriminate]. }
    unfold F32.mul, SFmul. cbn [xorb].
    destruct (digits2_mul_bounds 14680064 m) as [Dl Du].
    change (Zpos (digits2_pos 14680064)) with 24 in Dl, Du.
    pose proof (binary_round_aux_nonzero F32.prec F32.emax eq_refl false
                  (14680064 * m) (-20 + e) loc_Exact) as Hnz.
    pose proof (binary_round_aux_finite F32.prec F32.emax eq_refl false
                  (14680064 * m) (-20 + e) loc_Exact) as Hfin.
    pose proof (binary_round_aux_abs F32.prec F32.emax (Zpos (14680064 * m)) (-20 + e)
                  loc_Exact) as Habs.
    destruct (binary_round_aux F32.prec F32.emax false (Zpos (14680064 * m)) (-20 + e)
                loc_Exact) as [s'|s'| |s' m' e'].
    + exfalso. apply Hnz. unfold emin, F32.prec, F32.emax. lia.
    + exfalso. apply (Hfin ltac:(unfold emin, F32.prec, F32.emax; lia)
                           ltac:(unfold F32.prec, F32.emax; lia)
                           ltac:(unfold F32.emax; lia) s'). reflexivity.
    + exfalso. apply Hnz. unfold emin, F32.prec, F32.emax. lia.
    + cbn in Habs. injection Habs as <-. eauto.
Qed.

Lemma div_by_finite_class (x : float) (m : positive) (e : Z) :
  x <> F32.nan -> F32.abs x = x ->
  F32.div x (S754_finite false m e) <> F32.nan
  /\ F32.abs (F32.div x (S754_finite false m e)) = F32.div x (S754_finite false m e).
Proof.
  intros Hn Ha. split; [|now apply div_abs].
  destruct x as [s|s| |s mx ex]; cbn; try discriminate; [contradiction|].
  unfold F32.div, SFdiv, SFdiv_core_binary.
  set (m' := match _ with Z0 => _ | Zpos _ => _ | Zneg _ => _ end).
  assert (Hm' : 0 <= m').
  { unfold m'. destruct (_ - _ - _) as [|p|p]; try lia.
    rewrite Z.shiftl_mul_pow2 by lia. apply Z.mul_nonneg_nonneg; [lia|].
    apply Z.pow_nonneg. lia. }
  assert (Hq : 0 <= m' / Zpos m) by (apply Z.div_pos; lia).
  unfold Z.div in Hq. destruct (Z.div_eucl m' (Zpos m)) as [q r].
  now apply binary_round_aux_not_nan.
Qed.

(** [lroundf] returns, with the rounding or with an unspecified value. *)
Lemma lroundf_returns (x : float) :
  lroundf x = Unspecified \/ exists z, lroundf x = Returned z.
Proof.
  destruct x as [s|s| |s m e]; cbn [lroundf]; eauto.
  destruct ((- 2^63 <=? round_half_away s m e) && (round_half_away s m e <? 2^63)); eauto.
Qed.

Lemma round_half_away_bounds (m : positive) (e : Z) :
  Zpos m < 2^24 -> e < 40 \/ (e = 40 /\ Zpos m < 2^23) ->
  0 <= round_half_away false m e < 2^63.
Proof.
  intros Hm He. unfold round_half_away. cbn [cond_Zopp].
  destruct e as [|p|p].
  - lia.
  - destruct He as [He|[He Hm']].
    + assert (2 ^ Zpos p <= 2 ^ 39) by (apply Z.pow_le_mono_r; lia).
      assert (0 < 2 ^ Zpos p) by (apply Z.pow_pos_nonneg; lia).
      change (2^63) with (2^24 * 2^39). nia.
    + rewrite He. change (2^63) with (2^23 * 2^40). lia.
  - assert (Hp : 0 < 2 ^ (- Zneg p)) by (apply Z.pow_pos_nonneg; lia).
    assert (Hh : 0 <= 2 ^ (- Zneg p - 1)) by (apply Z.pow_nonneg; lia).
    assert (Hle : 2 ^ (- Zneg p - 1) < 2 ^ (- Zneg p)) by (apply Z.pow_lt_mono_r; lia).
    split; [apply Z.div_pos; lia|].
    apply Z.div_lt_upper_bound; [lia|]. nia.
Qed.

(** Below [2^63] the rounding is a [long]. *)
Lemma lroundf_in_range (q : float) :
  (forall s m e, q = S754_finite s m e -> Zpos m < 2^24) ->
  F32.abs q = q -> q <> F32.nan ->
  F32.ltb q (F32.of_Z (2^63)) = true ->
  exists z, 0 <= z < 2^63 /\ lroundf q = Returned z.
Proof.
  intros Hm Ha Hn Hlt. change (F32.of_Z (2^63)) with (S754_finite false 8388608 40) in Hlt.
  destruct q as [s|s| |s m e]; cbn [lroundf].
  - exists 0. split; [lia|reflexivity].
  - cbn in Ha. injection Ha as <-. discriminate Hlt.
  - contradiction.
  - cbn in Ha. injection Ha as <-. specialize (Hm false m e eq_refl).
    unfold F32.ltb, SFltb in Hlt. cbn [SFcompare] in Hlt.
    assert (He : e < 40 \/ (e = 40 /\ Zpos m < 2^23)).
    { destruct (Z.compare_spec e 40); [right|left; lia|discriminate].
      split; [assumption|]. subst e.
      assert (Hc : Pos.compare m 8388608 = Lt).
      { unfold Pos.compare. revert Hlt.
        destruct (Pos.compare_cont Eq m 8388608); intros H; try discriminate H.
        reflexivity. }
      apply Pos.compare_lt_iff in Hc. apply Pos2Z.pos_lt_pos in Hc.
      change (2^23) with 8388608. exact Hc. }
    pose proof (round_half_away_bounds m e Hm He) as Hb.
    exists (round_half_away false m e). split; [exact Hb|].
    destruct (Z.leb_spec (- 2^63) (round_half_away false m e)); [|lia].
    destruct (Z.ltb_spec (round_half_away false m e) (2^63)); [|lia].
    reflexivity.
Qed.

Lemma div_mantissa (x y : float) s m e :
  F32.div x y = S754_finite s m e -> Zpos m < 2^24.
Proof.
  destruct x as [sx|sx| |sx mx ex], y as [sy|sy| |sy my ey]; cbn; try discriminate.
  unfold F32.div, SFdiv, SFdiv_core_binary.
  set (m' := match _ with Z0 => _ | Zpos _ => _ | Zneg _ => _ end).
  assert (Hm' : 0 <= m').
  { unfold m'. destruct (_ - _ - _) as [|p|p]; try lia.
    rewrite Z.shiftl_mul_pow2 by lia. apply Z.mul_nonneg_nonneg; [lia|].
    apply Z.pow_nonneg. lia. }
  assert (Hq : 0 <= m' / Zpos my) by (apply Z.div_pos; lia).
  unfold Z.div in Hq. destruct (Z.div_eucl m' (Zpos my)) as [q r].
  apply (binary_round_aux_mantissa F32.prec F32.emax); [reflexivity|assumption].
Qed.

(** X17: on the domain of [estimate_req_filter_len], with valid [float]
    arguments and [slsl >= 8], the quotient handed to [lroundf] is neither
    a NaN nor negative, and the call returns, with a result or with an
    unspecified value; when the quotient is below [2^63], the range of
    [long], the result is its rounding, which is not negative, reduced
    modulo [2^32]. *)
Theorem estimate_req_filter_len_quotient (b slsl : float) :
  valid_float b -> valid_float slsl ->
  F32.ltb F32.zero b = true -> F32.leb b F32.half = true ->
  F32.leb (F32.of_Z 8) slsl = true ->
  F32.div (F32.sub slsl (F32.of_Z 8)) (F32.mul (F32.of_Z 14) b) <> F32.nan
  /\ F32.ltb (F32.div (F32.sub slsl (F32.of_Z 8)) (F32.mul (F32.of_Z 14) b)) F32.zero
     = false
  /\ (estimate_req_filter_len b slsl = Unspecified
      \/ exists n, estimate_req_filter_len b slsl = Returned n)
  /\ (F32.ltb (F32.div (F32.sub slsl (F32.of_Z 8)) (F32.mul (F32.of_Z 14) b))
         (F32.of_Z (2^63)) = true ->
      exists z, 0 <= z < 2^63
        /\ lroundf (F32.div (F32.sub slsl (F32.of_Z 8)) (F32.mul (F32.of_Z 14) b))
           = Returned z
        /\ estimate_req_filter_len b slsl = Returned (z mod 2^32)).
Proof.
  intros Hvb Hvs Hb0 Hb5 H8.
  destruct (sub_8_class slsl Hvs H8) as (Hn & Ha & Hs0).
  destruct (mul_14_class b Hvb Hb0 Hb5) as (m & e & Hd).
  destruct (div_by_finite_class _ m e Hn Ha) as [Hqn Hqa]. rewrite <- Hd in Hqn, Hqa.
  split; [exact Hqn|]. split; [now apply abs_not_negative|].
  unfold estimate_req_filter_len.
  rewrite (leb_not_gt _ _ Hb5), (ltb_not_ge _ _ Hb0), Hs0, (leb_not_gt _ _ H8).
  cbn [orb]. split.
  - destruct (lroundf_returns
                (F32.div (F32.sub slsl (F32.of_Z 8)) (F32.mul (F32.of_Z 14) b)))
      as [-> | [z ->]]; cbn [bind]; eauto.
  - intros Hlt.
    destruct (lroundf_in_range _ (div_mantissa _ _) Hqa Hqn Hlt) as (z & Hz & Hr).
    exists z. rewrite Hr. cbn [bind]. split; [exact Hz|]. split; reflexivity.
Qed.

Lemma estimate_req_filter_len_quotient_witness :
  exists z, 0 <= z < 2^63
    /\ lroundf (F32.div (F32.sub (F32.of_Z 20) (F32.of_Z 8))
                  (F32.mul (F32.of_Z 14) F32.half)) = Returned z
    /\ estimate_req_filter_len F32.half (F32.of_Z 20) = Returned (z mod 2^32).
Proof.
  apply (estimate_req_filter_len_quotient F32.half (F32.of_Z 20)); reflexivity.
Defined.

(** ** The ISI analysis beyond the 32-bit range *)

(** X18: whatever [k] and [m], wrapped around or not, as long as no lag
    [i*_k] is [INT_MIN] as an [int], the outputs are the mean of the squares
    and the maximum of the terms [|r(lag_i) / r(0)|] for [i = 1 .. n], with
    [n] the [unsigned int] value of [2*_m] (at least 1), [lag_i] the [int]
    value of [i*_k] and [r] the autocorrelation of the first [h_len]
    cells. *)
Theorem liquid_filter_isi_wrapped (h : list float) (k m : Z) :
  isi_length k m <= Z.of_nat (length h) -> 1 <= to_uint (2 * m) ->
  isi_lags_defined k m ->
  liquid_filter_isi h k m
  = Returned
      (F32.div
         (sum_range (fun i => F32.mul (isi_e_wrapped h k m i) (isi_e_wrapped h k m i))
            1 (to_uint (2 * m)))
         (F32.of_Z (to_uint (2 * m))),
       max_range (isi_e_wrapped h k m) 1 (to_uint (2 * m)))
  /\ is_max_range (isi_e_wrapped h k m) 1 (to_uint (2 * m))
       (max_range (isi_e_wrapped h k m) 1 (to_uint (2 * m))).
Proof.
  intros Hlen Hn Hdef. split; [|apply max_range_is_max; lia].
  rewrite isi_within by assumption. cbv zeta.
  unfold isi_iterations, isi_divisor. fold (isi_lag k). fold (isi_e_wrapped h k m).
  set (n := to_uint (2 * m)) in *.
  assert (E : fold_range (Z.to_nat n) 1 (isi_step (isi_e_wrapped h k m)) (F32.zero, F32.zero)
              = (sum_range (fun i => F32.mul (isi_e_wrapped h k m i) (isi_e_wrapped h k m i))
                   1 n,
                 max_range (isi_e_wrapped h k m) 1 n)).
  { unfold sum_range, max_range.
    replace (Z.to_nat (n - 1 + 1)) with (S (Z.to_nat (n - 1))) by lia.
    replace (Z.to_nat n) with (S (Z.to_nat (n - 1))) by lia.
    cbn [fold_range]. unfold isi_step at 2. cbn [fst snd Z.eqb orb].
    now rewrite isi_step_fold by lia. }
  unfold isi_e_wrapped at 1 2 in E. unfold isi_lag in E at 1 2.
  rewrite E. reflexivity.
Qed.

Lemma liquid_filter_isi_wrapped_witness :
  liquid_filter_isi [F32.one; F32.zero; F32.half] (2^31 + 1) 1
  = Returned
      (F32.div
         (sum_range (fun i => F32.mul
                       (isi_e_wrapped [F32.one; F32.zero; F32.half] (2^31 + 1) 1 i)
                       (isi_e_wrapped [F32.one; F32.zero; F32.half] (2^31 + 1) 1 i))
            1 (to_uint (2 * 1)))
         (F32.of_Z (to_uint (2 * 1))),
       max_range (isi_e_wrapped [F32.one; F32.zero; F32.half] (2^31 + 1) 1)
         1 (to_uint (2 * 1))).
Proof.
  destruct (liquid_filter_isi_wrapped [F32.one; F32.zero; F32.half] (2^31 + 1) 1)
    as [H _]; [| | | exact H].
  - vm_compute. discriminate.
  - vm_compute. discriminate.
  - intros i Hi. change (to_uint (2 * 1)) with 2 in Hi.
    assert (E : i = 1 \/ i = 2) by lia.
    destruct E as [-> | ->]; vm_compute; discriminate.
Defined.
